(** * Layout engine of the timeline visualizer ([log_visualizer.py])

    A shallow embedding of [TimelineVisualizer] and of the properties its
    specification states about it.

    Conventions of the embedding.
    - A [datetime] is the number of microseconds since the midnight that
      opens the epoch day (its resolution in Python), a [Z]; the epoch day
      is the one [strptime] gives to a time without a date, 1900-01-01.  A
      [timedelta] is a [Z] number of microseconds.
    - A Python [float] is an exact rational, a [Q]: the formulas are the
      ones of the source, evaluated without rounding.  Numeric results are
      compared with [==] where two different expressions meet.  Where the
      rounding of binary64 arithmetic decides what is printed or whether an
      identity holds, it is modelled: the quotient of a duration label is
      rounded to binary64 ([round_binary64]), and the packing of the
      annotation boxes is also given on the primitive floats.
    - [self.commands] and [self.used_text_areas] are the mutable state of
      the visualizer; methods that touch them live in a state-and-exception
      monad, and a raised Python exception is an [inl] result.
    - A command is kept as its constructor with numeric arguments, before
      the f-string prints it. *)

From Stdlib Require Import ZArith QArith Qround Qabs List String Ascii Bool.
From Stdlib Require Import DecimalString Qpower Floats.
From Stdlib Require Import Lia Lqa Sorted Permutation.
Import ListNotations.

Close Scope Q_scope.
Open Scope Z_scope.

(** ** The trace tree consumed by the visualizer ([logger.parse_logs]) *)

Module ParseLogs.

Record LogMessage := { timestamp : Z; message : string }.

Inductive LogSection :=
| MkLogSection (name : string) (start_time : Z) (end_time : option Z)
               (children : list Child)
with Child :=
| ChildSection (s : LogSection)
| ChildMessage (m : LogMessage).

Definition name (s : LogSection) : string :=
  let (n, _, _, _) := s in n.
Definition start_time (s : LogSection) : Z :=
  let (_, t, _, _) := s in t.
Definition end_time (s : LogSection) : option Z :=
  let (_, _, t, _) := s in t.
Definition children (s : LogSection) : list Child :=
  let (_, _, _, c) := s in c.

(** [timedelta.total_seconds()]. *)
Definition total_seconds (us : Z) : Q := (inject_Z us / 1000000)%Q.

(** Modelled from the spec: [LogSection.duration_microseconds] is defined
    in [logger.parse_logs], which is not part of the sources at hand.  The
    specification gives a section a duration once it has ended, in
    microseconds: the difference of its two timestamps, a whole number of
    microseconds. *)
Definition duration_microseconds (s : LogSection) : option Q :=
  match end_time s with
  | Some e => Some (inject_Z (e - start_time s))
  | None => None
  end.

End ParseLogs.

Import ParseLogs.

(** ** Exceptions, state and the monad of the methods *)

Inductive exn := TypeError | IndexError | ValueError | ZeroDivisionError.

Definition rgb : Type := Q * Q * Q.

Inductive Command :=
| generate_rectangle (cx cy cz width height : Q) (color : rgb)
| get_text_geometry (label : string) (cx cy cz width height : Q) (color : rgb)
| generate_rectangle_between_2d (x1 y1 x2 y2 thickness : Q) (color : rgb).

(** The three methods that take the sizing-mode flag, as they are entered. *)
Inductive Call :=
| call_process_section (height_is_depth_based : bool)
| call_draw_section_rect (height_is_depth_based : bool)
| call_draw_event_sequence_annotations (height_is_depth_based : bool).

Definition call_flag (c : Call) : bool :=
  match c with
  | call_process_section b
  | call_draw_section_rect b
  | call_draw_event_sequence_annotations b => b
  end.

(** [commands] and [used_text_areas] are the two lists of the object;
    [calls] is a ghost history of the flagged calls, in call order. *)
Record State := {
  commands : list Command;
  used_text_areas : list (Q * Q * Q * Q);
  calls : list Call
}.

Definition M (A : Type) : Type := State -> (exn + A) * State.

Definition ret {A} (a : A) : M A := fun st => (inr a, st).
Definition raise {A} (e : exn) : M A := fun st => (inl e, st).
Definition bind {A B} (m : M A) (f : A -> M B) : M B :=
  fun st =>
    match m st with
    | (inl e, st') => (inl e, st')
    | (inr a, st') => f a st'
    end.

Notation "x <- m ;; k" := (bind m (fun x => k))
  (at level 61, m at next level, right associativity).
Notation "m ;;; k" := (bind m (fun _ => k))
  (at level 61, right associativity).

(** [self.commands.append(c)] *)
Definition commands_append (c : Command) : M unit :=
  fun st => (inr tt, {| commands := commands st ++ [c];
                        used_text_areas := used_text_areas st;
                        calls := calls st |}).

(** [self.used_text_areas.append(a)] *)
Definition used_text_areas_append (a : Q * Q * Q * Q) : M unit :=
  fun st => (inr tt, {| commands := commands st;
                        used_text_areas := used_text_areas st ++ [a];
                        calls := calls st |}).

Definition enter (c : Call) : M unit :=
  fun st => (inr tt, {| commands := commands st;
                        used_text_areas := used_text_areas st;
                        calls := calls st ++ [c] |}).

(** A pure computation that may raise. *)
Definition lift {A} (r : exn + A) : M A :=
  match r with inl e => raise e | inr a => ret a end.

(** ** The visualizer object *)

Record TimelineVisualizer := {
  root_section : LogSection;
  build_direction_factor : Q;
  ndc_units_per_second : Q;
  use_custom_root_section_height : bool;
  custom_root_section_height : Q;
  base_timeline_position_y : Q;
  draw_timeline : bool;
  timeline_tick_width : Q;
  timeline_tick_height : Q;
  start_time : Z;
  end_time : Z;
  total_duration : Q
}.

(** ** Timestamps of the logger ([parse_spdlog_time])

    [datetime.strptime] turns the format ["%H:%M:%S.%f"] into the regular
    expression
    [(2[0-3]|[0-1]\d|\d):([0-5]\d|\d):(6[0-1]|[0-5]\d|\d)\.([0-9]{1,6})],
    matches it at the start of the string, raises [ValueError] when it does
    not match or when text is left after the match, and builds the
    [datetime] of 1900-01-01 at the time read, which raises [ValueError]
    for a second above 59.  The digits are the ASCII digits: the strings
    of the model are strings of ASCII characters ([ascii_only]). *)

Definition ascii_only (s : string) : bool :=
  forallb (fun c => (nat_of_ascii c <? 128)%nat) (list_ascii_of_string s).

Definition is_digit (c : ascii) : bool :=
  ((48 <=? nat_of_ascii c) && (nat_of_ascii c <=? 57))%nat.

Definition digit_value (c : ascii) : Z := Z.of_nat (nat_of_ascii c) - 48.

(** A field of the shape [hi|lo\d|\d]: two digits when they make a number
    up to [max], else one digit. *)
Definition read_field (max : Z) (s : string) : option (Z * string) :=
  match s with
  | String a (String b rest) =>
      if is_digit a && is_digit b
         && (10 * digit_value a + digit_value b <=? max)
      then Some (10 * digit_value a + digit_value b, rest)
      else if is_digit a then Some (digit_value a, String b rest)
      else None
  | String a rest => if is_digit a then Some (digit_value a, rest) else None
  | EmptyString => None
  end.

(** A literal character of the format. *)
Definition read_char (c : ascii) (s : string) : option string :=
  match s with
  | String a rest => if Ascii.eqb a c then Some rest else None
  | EmptyString => None
  end.

(** [[0-9]{1,6}], greedy: up to [n] digits, with the number they spell
    and how many were read. *)
Fixpoint read_digits (n : nat) (acc : Z) (s : string) : Z * nat * string :=
  match n, s with
  | S n', String a rest =>
      if is_digit a
      then let '(v, k, rest') :=
             read_digits n' (10 * acc + digit_value a) rest in
           (v, S k, rest')
      else (acc, O, s)
  | _, _ => (acc, O, s)
  end.

Definition parse_spdlog_time (time_str : string) : exn + Z :=
  match read_field 23 time_str with
  | None => inl ValueError
  | Some (hour, s1) =>
  match read_char ":" s1 with
  | None => inl ValueError
  | Some s2 =>
  match read_field 59 s2 with
  | None => inl ValueError
  | Some (minute, s3) =>
  match read_char ":" s3 with
  | None => inl ValueError
  | Some s4 =>
  match read_field 61 s4 with
  | None => inl ValueError
  | Some (second, s5) =>
  match read_char "." s5 with
  | None => inl ValueError
  | Some s6 =>
  match read_digits 6 0 s6 with
  | (_, O, _) => inl ValueError
  | (_, _, String _ _) => inl ValueError
  | (f, k, EmptyString) =>
      let fraction := f * 10 ^ Z.of_nat (6 - k) in
      if 59 <? second then inl ValueError
      else inr (((hour * 60 + minute) * 60 + second) * 1000000 + fraction)
  end end end end end end end.

(** [__init__].  A [custom_start_time] goes through [parse_spdlog_time]
    before the root [end_time] is read; subtracting from an absent
    [end_time] raises. *)
Definition init (root : LogSection) (build_direction : string)
    (scale : Q) (use_custom : bool) (custom_height base_y : Q)
    (draw_axis : bool) (tick_w tick_h : Q) (custom_start_time : option string)
  : exn + TimelineVisualizer :=
  let factor := if String.eqb build_direction "down" then (-1)%Q else 1%Q in
  match
    match custom_start_time with
    | Some time_str => parse_spdlog_time time_str
    | None => inr (ParseLogs.start_time root)
    end
  with
  | inl e => inl e
  | inr start =>
  match ParseLogs.end_time root with
  | None => inl TypeError
  | Some e =>
      inr {| root_section := root;
             build_direction_factor := factor;
             ndc_units_per_second := scale;
             use_custom_root_section_height := use_custom;
             custom_root_section_height := custom_height;
             base_timeline_position_y := base_y;
             draw_timeline := draw_axis;
             timeline_tick_width := tick_w;
             timeline_tick_height := tick_h;
             start_time := start;
             end_time := e;
             total_duration := (total_seconds (e - start) * 1000000)%Q |}
  end
  end.

(** The constructor with every keyword argument at its default. *)
Definition init_default (root : LogSection) : exn + TimelineVisualizer :=
  init root "up" 0.5%Q true 0.01%Q 0%Q true 0.01%Q 0.1%Q None.

(** ** Geometry and layout helpers *)

Section Helpers.

Variable self : TimelineVisualizer.

Definition time_to_x (timestamp : Z) : Q :=
  let elapsed_seconds := total_seconds (timestamp - start_time self) in
  let ndc_x_pos := (elapsed_seconds * ndc_units_per_second self)%Q in
  ndc_x_pos.

Definition get_depth_scale (depth : nat) : Q :=
  (1 / (inject_Z (Z.of_nat depth) + 1))%Q.

Definition get_event_width_depth_based
    (root_section_width : Q) (depth : nat) : Q :=
  (0.005 * get_depth_scale (depth + 1) * (root_section_width / 2))%Q.

(** Python's [max(a, b)] keeps [a] unless [b] is strictly larger. *)
Definition py_max (a b : Q) : Q := if Qle_bool b a then a else b.

Definition get_event_width_aspect_ratio_based (section_width : Q) : Q :=
  let result := (section_width / 1000)%Q in
  py_max result 0.000001%Q.

Definition get_section_rect_height_depth_based
    (root_section_width : Q) (depth : nat) : Q :=
  (0.15 * get_depth_scale depth * (root_section_width / 2))%Q.

Definition get_section_rect_height_aspect_ratio_based
    (section_width : Q) : Q :=
  (section_width / 4)%Q.

End Helpers.

(** ** Python library functions the methods rely on *)

(** Rounding of a rational to the nearest integer, ties to the even
    neighbour, as the float formatter and [timedelta] do. *)
Definition round_half_even (q : Q) : Z :=
  let f := Qfloor q in
  let r := (q - inject_Z f)%Q in
  match (r ?= 1 # 2)%Q with
  | Lt => f
  | Gt => f + 1
  | Eq => if Z.even f then f else f + 1
  end.

(** The exponent of the binade of a positive rational: the [k] with
    [2^k <= q < 2^(k+1)]. *)
Definition binade (q : Q) : Z :=
  let k := Z.log2 (Qnum q) - Z.log2 (Zpos (Qden q)) in
  if Qle_bool (2 ^ k)%Q q then k else k - 1.

(** The binary64 number nearest to a positive rational, ties to even: 53
    significant bits, the spacing of the subnormal numbers below
    [2^-1022].  Overflow to infinity, from [2^1024] on, is left out. *)
Definition round_binary64_pos (q : Q) : Q :=
  let e := Z.max (binade q - 52) (-1074) in
  (inject_Z (round_half_even (q / 2 ^ e)) * 2 ^ e)%Q.

Definition round_binary64 (q : Q) : Q :=
  match (q ?= 0)%Q with
  | Eq => 0%Q
  | Gt => round_binary64_pos q
  | Lt => (- round_binary64_pos (- q))%Q
  end.

(** The float operations [a / b] (for a divisor that is not 0), [a * b],
    [a + b] and [a - b]: the exact result, rounded. *)
Definition fdiv (a b : Q) : Q := round_binary64 (a / b).
Definition fmul (a b : Q) : Q := round_binary64 (a * b).
Definition fadd (a b : Q) : Q := round_binary64 (a + b).
Definition fsub (a b : Q) : Q := round_binary64 (a - b).

(** An [int] as the float that arithmetic with a float turns it into;
    exact below [2^53]. *)
Definition float_of_Z (z : Z) : float :=
  match z with
  | Z0 => 0%float
  | Zpos _ => PrimFloat.of_uint63 (Uint63.of_Z z)
  | Zneg p => (- PrimFloat.of_uint63 (Uint63.of_Z (Zpos p)))%float
  end.

(** The exact value of a primitive float that is finite. *)
Definition Q_of_float (x : float) : option Q :=
  match Prim2SF x with
  | S754_zero _ => Some 0%Q
  | S754_finite sign m e =>
      let v := (inject_Z (Zpos m) * 2 ^ e)%Q in
      Some (if sign then (- v)%Q else v)
  | _ => None
  end.

Definition digits (n : Z) : string :=
  DecimalString.NilZero.string_of_uint (N.to_uint (Z.to_N n)).

Fixpoint zeros (k : nat) : string :=
  match k with
  | O => EmptyString
  | S k' => String "0" (zeros k')
  end.

(** [n] printed on at least [width] digits, zero-filled on the left. *)
Definition zfill (width : nat) (n : Z) : string :=
  let s := digits n in
  (zeros (width - String.length s) ++ s)%string.

(** The format specification [.df] applied to a float: [f"{x:.3f}"] is
    [format_fixed 3 x]. *)
Definition format_fixed (decimals : nat) (x : Q) : string :=
  let scale := 10 ^ Z.of_nat decimals in
  let n := round_half_even (Qabs x * inject_Z scale)%Q in
  let sign := if Qle_bool 0 x then EmptyString else "-"%string in
  let int_part := digits (n / scale) in
  let frac_part :=
    match decimals with
    | O => EmptyString
    | _ => ("." ++ zfill decimals (n mod scale))%string
    end in
  (sign ++ int_part ++ frac_part)%string.

(** [datetime.strftime("%H:%M:%S.%f")] *)
Definition strftime_HMSf (t : Z) : string :=
  let tod := t mod 86400000000 in
  (zfill 2 (tod / 3600000000) ++ ":" ++
   zfill 2 ((tod / 60000000) mod 60) ++ ":" ++
   zfill 2 ((tod / 1000000) mod 60) ++ "." ++
   zfill 6 (tod mod 1000000))%string.

(** [x % m] on floats, for a positive modulus. *)
Definition py_mod (x m : Q) : Q := (x - m * inject_Z (Qfloor (x / m)))%Q.

(** [colorsys.hsv_to_rgb] *)
Definition hsv_to_rgb (h s v : Q) : rgb :=
  if Qeq_bool s 0 then (v, v, v)
  else
    let i := Z.quot (Qnum (h * 6)%Q) (Zpos (Qden (h * 6)%Q)) in
    let f := (h * 6 - inject_Z i)%Q in
    let p := (v * (1 - s))%Q in
    let q := (v * (1 - s * f))%Q in
    let t := (v * (1 - s * (1 - f)))%Q in
    let i := i mod 6 in
    if i =? 0 then (v, t, p)
    else if i =? 1 then (q, v, p)
    else if i =? 2 then (p, v, t)
    else if i =? 3 then (p, q, v)
    else if i =? 4 then (t, p, v)
    else (v, p, q).

Definition is_space (c : ascii) : bool :=
  let n := nat_of_ascii c in
  (((9 <=? n) && (n <=? 13)) || ((28 <=? n) && (n <=? 32)))%nat.

Fixpoint lstrip (s : string) : string :=
  match s with
  | String c s' => if is_space c then lstrip s' else s
  | EmptyString => EmptyString
  end.

Fixpoint rstrip (s : string) : string :=
  match s with
  | String c s' =>
      match rstrip s' with
      | EmptyString => if is_space c then EmptyString else String c EmptyString
      | r => String c r
      end
  | EmptyString => EmptyString
  end.

(** [str.strip()], on the whitespace of the ASCII range. *)
Definition strip (s : string) : string := rstrip (lstrip s).

(** [max(xs, default=d)] and [min(xs, default=d)] on timestamps. *)
Definition max_default (xs : list Z) (d : Z) : Z :=
  match xs with
  | [] => d
  | x :: xs' => fold_left Z.max xs' x
  end.

Definition min_default (xs : list Z) (d : option Z) : option Z :=
  match xs with
  | [] => d
  | x :: xs' => Some (fold_left Z.min xs' x)
  end.

(** [sorted(xs, key=key)]: the stable ascending sort. *)
Section Sorted.
Context {A : Type} (key : A -> Z).

Fixpoint insert_by (x : A) (l : list A) : list A :=
  match l with
  | [] => [x]
  | y :: l' => if key x <=? key y then x :: l else y :: insert_by x l'
  end.

Definition sorted (xs : list A) : list A := fold_right insert_by [] xs.
End Sorted.

(** [for x in xs: body(x)] *)
Fixpoint for_each {A} (xs : list A) (body : A -> M unit) : M unit :=
  match xs with
  | [] => ret tt
  | x :: xs' => body x ;;; for_each xs' body
  end.

(** [for i, x in enumerate(xs): body(i, x)], counting from [i]. *)
Fixpoint for_each_enumerate {A} (i : nat) (xs : list A)
    (body : nat -> A -> M unit) : M unit :=
  match xs with
  | [] => ret tt
  | x :: xs' => body i x ;;; for_each_enumerate (S i) xs' body
  end.

(** ** Drawing methods *)

Section Methods.

Variable self : TimelineVisualizer.

Definition generate_color (depth index : nat) : rgb :=
  let d := inject_Z (Z.of_nat depth) in
  let i := inject_Z (Z.of_nat index) in
  let hue := py_mod (d * 0.3 + i * 0.1)%Q 1 in
  let saturation := 0.7%Q in
  let value := (0.9 - py_mod (d * 0.1) 0.6)%Q in
  hsv_to_rgb hue saturation value.

Definition draw_base_timeline : M unit :=
  commands_append
    (generate_rectangle (-0) (base_timeline_position_y self) 0 2 0.02
       (0.5, 0.5, 0.5))%Q.

Definition draw_tick (i : nat) : M unit :=
  let fi := inject_Z (Z.of_nat i) in
  let x_pos := (-1 + fi * 0.2)%Q in
  let time_fraction := (fi / 10)%Q in
  let tick_time_us := (time_fraction * total_duration self)%Q in
  let tick_timestamp := start_time self + round_half_even tick_time_us in
  commands_append
    (generate_rectangle x_pos (base_timeline_position_y self) 0
       (timeline_tick_width self) (timeline_tick_height self)
       (0.4, 0.4, 0.4))%Q ;;;
  let time_str := strftime_HMSf tick_timestamp in
  let text_x := (x_pos - 0.05)%Q in
  let text_y :=
    (base_timeline_position_y self - 0.1 * build_direction_factor self)%Q in
  used_text_areas_append
    (text_x, text_x + 0.1, text_y, text_y + 0.08)%Q ;;;
  commands_append
    (get_text_geometry time_str text_x text_y 0.1 0.2 0.16
       (0.8, 0.8, 0.8))%Q.

Definition draw_ticks : M unit := for_each (seq 0 11) draw_tick.

(** The unit table of [format_duration_us], in source order. *)
Definition units : list (string * Q) :=
  [("µs"%string, 1); ("ms"%string, 1000); ("s"%string, 1000000);
   ("min"%string, 60 * 1000000); ("h"%string, 3600 * 1000000)]%Q.

(** The three-tier choice of decimals inside the loop. *)
Definition format_value (value : Q) (unit : string) : string :=
  if negb (Qle_bool 10 value) then (format_fixed 3 value ++ unit)%string
  else if negb (Qle_bool 100 value) then (format_fixed 2 value ++ unit)%string
  else (format_fixed 0 value ++ unit)%string.

(** The [for unit, factor in ...] loop: the first entry whose factor the
    duration reaches returns. *)
Fixpoint format_duration_loop (us : list (string * Q)) (duration_us : Q)
  : option string :=
  match us with
  | [] => None
  | (unit, factor) :: rest =>
      if Qle_bool factor duration_us then
        let value := fdiv duration_us factor in
        Some (format_value value unit)
      else format_duration_loop rest duration_us
  end.

Definition format_duration_us (duration_us : Q) : string :=
  match format_duration_loop (rev units) duration_us with
  | Some s => s
  | None => (format_fixed 0 duration_us ++ "µs")%string
  end.

(** The default of the [height_is_depth_based] keyword in each signature. *)
Definition draw_section_rect_default : bool := true.
Definition draw_event_sequence_annotations_default : bool := true.
Definition process_section_default : bool := false.

Definition draw_section_rect (section : LogSection) (depth : nat)
    (section_index : nat) (bottom_y_section : Q) (root_section_width : Q)
    (height_is_depth_based : bool) : M (Q * Q * Q) :=
  enter (call_draw_section_rect height_is_depth_based) ;;;
  let x_start := time_to_x self (ParseLogs.start_time section) in
  section_end_time <-
    lift match ParseLogs.end_time section with
         | Some e => inr e
         | None => inl TypeError
         end ;;
  let x_end := time_to_x self section_end_time in
  let width := (x_end - x_start)%Q in
  let height :=
    if height_is_depth_based
    then get_section_rect_height_depth_based root_section_width depth
    else get_section_rect_height_aspect_ratio_based width in
  let height :=
    if String.eqb (ParseLogs.name section) "root" then
      if use_custom_root_section_height self
      then custom_root_section_height self
      else height
    else height in
  let rect_center_y :=
    (bottom_y_section + (height / 2) * build_direction_factor self)%Q in
  let rect_center_x := ((x_start + x_end) / 2)%Q in
  let color := generate_color depth section_index in
  commands_append
    (generate_rectangle rect_center_x rect_center_y 0 width height color) ;;;
  let duration := duration_microseconds section in
  let duration_text :=
    match duration with
    | Some d => (" (" ++ format_duration_us d ++ ")")%string
    | None => EmptyString
    end in
  let label_text := (ParseLogs.name section ++ duration_text)%string in
  commands_append
    (get_text_geometry label_text rect_center_x rect_center_y 0.01%Q
       width height (0.9, 0.9, 0.9)%Q) ;;;
  ret (width, height, rect_center_y).

(** The sort key of [group_event_sequences]. *)
Definition anchor (c : Child) : Z :=
  match c with
  | ChildMessage m => timestamp m
  | ChildSection s => ParseLogs.start_time s
  end.

(** The loop of [group_event_sequences], on the pair
    [(event_sequences, current_seq)]. *)
Fixpoint group_loop (cs : list Child)
    (event_sequences : list (list LogMessage)) (current_seq : list LogMessage)
  : list (list LogMessage) * list LogMessage :=
  match cs with
  | [] => (event_sequences, current_seq)
  | ChildMessage m :: rest =>
      group_loop rest event_sequences (current_seq ++ [m])
  | ChildSection _ :: rest =>
      match current_seq with
      | [] => group_loop rest event_sequences []
      | _ :: _ => group_loop rest (event_sequences ++ [current_seq]) []
      end
  end.

Definition group_event_sequences (section : LogSection)
  : list (list LogMessage) :=
  let children_sorted := sorted anchor (ParseLogs.children section) in
  let '(event_sequences, current_seq) := group_loop children_sorted [] [] in
  match current_seq with
  | [] => event_sequences
  | _ :: _ => event_sequences ++ [current_seq]
  end.

(** [[s for s in children if isinstance(s, LogSection)
       and s.end_time <= first_event.timestamp]]: comparing an absent
    [end_time] with a timestamp raises. *)
Fixpoint sections_ending_before (cs : list Child) (t : Z)
  : exn + list LogSection :=
  match cs with
  | [] => inr []
  | ChildMessage _ :: rest => sections_ending_before rest t
  | ChildSection s :: rest =>
      match ParseLogs.end_time s with
      | None => inl TypeError
      | Some e =>
          match sections_ending_before rest t with
          | inl x => inl x
          | inr l => inr (if e <=? t then s :: l else l)
          end
      end
  end.

(** [[s.end_time for s in sections]], for [max]: an absent time cannot be
    ordered, nor mapped by [time_to_x]. *)
Fixpoint end_times (sections : list LogSection) : exn + list Z :=
  match sections with
  | [] => inr []
  | s :: rest =>
      match ParseLogs.end_time s, end_times rest with
      | Some e, inr l => inr (e :: l)
      | None, _ => inl TypeError
      | _, inl x => inl x
      end
  end.

(** [[s for s in children if isinstance(s, LogSection)
       and s.start_time >= last_event.timestamp]] *)
Fixpoint sections_starting_after (cs : list Child) (t : Z)
  : list LogSection :=
  match cs with
  | [] => []
  | ChildMessage _ :: rest => sections_starting_after rest t
  | ChildSection s :: rest =>
      if ParseLogs.start_time s >=? t
      then s :: sections_starting_after rest t
      else sections_starting_after rest t
  end.

Definition left_bound_time (parent_section : LogSection)
    (first_event : LogMessage) : exn + Z :=
  match sections_ending_before (ParseLogs.children parent_section)
          (timestamp first_event) with
  | inl x => inl x
  | inr sections_ending_before_first_event =>
      match end_times sections_ending_before_first_event with
      | inl x => inl x
      | inr ts => inr (max_default ts (ParseLogs.start_time parent_section))
      end
  end.

Definition right_bound_time (parent_section : LogSection)
    (last_event : LogMessage) : option Z :=
  let sections_starting_after_last_event :=
    sections_starting_after (ParseLogs.children parent_section)
      (timestamp last_event) in
  min_default (map ParseLogs.start_time sections_starting_after_last_event)
    (ParseLogs.end_time parent_section).

(** The locals of [draw_event_sequence_annotations] that are fixed before
    its loop starts. *)
Record AnnotationLayout := {
  available_area_x_start : Q;
  available_area_x_end : Q;
  available_width : Q;
  margin : Q;
  annotation_rect_width : Q;
  parent_section_build_side_y : Q;
  annotation_rect_center_y : Q;
  annotation_rect_height : Q
}.

Definition annotation_layout (event_sequence : list LogMessage)
    (parent_section : LogSection) (depth : nat)
    (parent_section_rect_center_y parent_section_rect_width
     parent_section_rect_height root_section_width : Q)
    (height_is_depth_based : bool) : exn + AnnotationLayout :=
  match event_sequence with
  | [] => inl IndexError
  | first_event :: _ =>
      let last_event := last event_sequence first_event in
      match left_bound_time parent_section first_event with
      | inl x => inl x
      | inr left_bound =>
          match right_bound_time parent_section last_event with
          | None => inl TypeError
          | Some right_bound =>
              let x_start := time_to_x self left_bound in
              let x_end := time_to_x self right_bound in
              let width := (x_end - x_start)%Q in
              let num_events_in_sequence :=
                inject_Z (Z.of_nat (List.length event_sequence)) in
              let margin := (0.01 * width)%Q in
              let remaining_space :=
                (width - margin * (num_events_in_sequence - 1))%Q in
              let rect_width :=
                (remaining_space / num_events_in_sequence)%Q in
              let build_side_y :=
                (parent_section_rect_center_y
                 + (parent_section_rect_height / 2)
                   * build_direction_factor self)%Q in
              inr {| available_area_x_start := x_start;
                     available_area_x_end := x_end;
                     available_width := width;
                     margin := margin;
                     annotation_rect_width := rect_width;
                     parent_section_build_side_y := build_side_y;
                     annotation_rect_center_y :=
                       if height_is_depth_based then
                         (build_side_y
                          + (get_section_rect_height_depth_based
                               root_section_width depth * 1.5)
                            * build_direction_factor self)%Q
                       else
                         (build_side_y
                          + (get_section_rect_height_aspect_ratio_based
                               parent_section_rect_width * 1.5)
                            * build_direction_factor self)%Q;
                     annotation_rect_height :=
                       if height_is_depth_based then
                         (0.08 * get_depth_scale depth
                          * (root_section_width / 2))%Q
                       else (rect_width / 4)%Q |}
          end
      end
  end.

(** The body of the [for i, event in enumerate(event_sequence)] loop. *)
Definition draw_annotation (lay : AnnotationLayout) (depth : nat)
    (parent_section_rect_width parent_section_rect_height
     root_section_width : Q) (height_is_depth_based : bool)
    (i : nat) (event : LogMessage) : M unit :=
  let start_x :=
    (available_area_x_start lay
     + inject_Z (Z.of_nat i) * (annotation_rect_width lay + margin lay))%Q in
  let annotation_rect_center_x :=
    (start_x + annotation_rect_width lay / 2)%Q in
  commands_append
    (generate_rectangle annotation_rect_center_x
       (annotation_rect_center_y lay) 0 (annotation_rect_width lay)
       (annotation_rect_height lay) (0.4, 0.6, 0.8)%Q) ;;;
  let label_text := strip (message event) in
  commands_append
    (get_text_geometry label_text annotation_rect_center_x
       (annotation_rect_center_y lay) 0.01%Q (annotation_rect_width lay)
       (annotation_rect_height lay) (1, 1, 0.8)%Q) ;;;
  let event_x := time_to_x self (timestamp event) in
  let event_y :=
    if height_is_depth_based then
      (parent_section_build_side_y lay
       + get_section_rect_height_depth_based root_section_width depth
         * build_direction_factor self)%Q
    else
      (parent_section_build_side_y lay
       + (parent_section_rect_height / 2) * build_direction_factor self)%Q in
  let event_width :=
    if height_is_depth_based
    then get_event_width_depth_based root_section_width (depth + 1)
    else get_event_width_aspect_ratio_based parent_section_rect_width in
  commands_append
    (generate_rectangle_between_2d annotation_rect_center_x
       (annotation_rect_center_y lay) event_x event_y event_width
       (0.6, 0.6, 0.6)%Q).

Definition draw_event_sequence_annotations
    (event_sequence : list LogMessage) (parent_section : LogSection)
    (depth : nat)
    (parent_section_rect_center_y parent_section_rect_width
     parent_section_rect_height root_section_width : Q)
    (height_is_depth_based : bool) : M unit :=
  enter (call_draw_event_sequence_annotations height_is_depth_based) ;;;
  lay <- lift (annotation_layout event_sequence parent_section depth
                 parent_section_rect_center_y parent_section_rect_width
                 parent_section_rect_height root_section_width
                 height_is_depth_based) ;;
  for_each_enumerate 0 event_sequence
    (draw_annotation lay depth parent_section_rect_width
       parent_section_rect_height root_section_width height_is_depth_based).

(** The [elif isinstance(child, LogMessage)] branch of [process_section]. *)
Definition draw_event (child : LogMessage) (depth : nat)
    (bottom_y_current_section section_rect_width section_rect_height
     root_section_width : Q) (height_is_depth_based : bool) : M unit :=
  let event_center_x := time_to_x self (timestamp child) in
  let event_height :=
    if height_is_depth_based
    then get_section_rect_height_depth_based root_section_width (depth + 1)
    else (section_rect_height / 2)%Q in
  let event_width :=
    if height_is_depth_based
    then get_event_width_depth_based root_section_width (depth + 1)
    else get_event_width_aspect_ratio_based section_rect_width in
  let build_side_y_of_current_section :=
    (bottom_y_current_section
     + section_rect_height * build_direction_factor self)%Q in
  let event_center_y :=
    (build_side_y_of_current_section
     + (event_height / 2) * build_direction_factor self)%Q in
  commands_append
    (generate_rectangle event_center_x event_center_y 0 event_width
       event_height (1, 0.8, 0.4)%Q).

(** [process_section] returns [bottom_y_current_section] for a section left
    open and [None] otherwise. *)
Fixpoint process_section (section : LogSection) (depth : nat)
    (bottom_y_current_section : Q) (section_index_for_labelling : nat)
    (root_section_width : Q) (height_is_depth_based : bool)
    {struct section} : M (option Q) :=
  enter (call_process_section height_is_depth_based) ;;;
  match section with
  | MkLogSection _ section_start_time section_end_time section_children =>
      match section_end_time with
      | None => ret (Some bottom_y_current_section)
      | Some section_end =>
          let iterating_on_root := Qeq_bool root_section_width (-1) in
          let root_section_width :=
            if iterating_on_root then
              let x_start := time_to_x self section_start_time in
              let x_end := time_to_x self section_end in
              (x_end - x_start)%Q
            else root_section_width in
          rect <- draw_section_rect section depth
                    section_index_for_labelling bottom_y_current_section
                    root_section_width height_is_depth_based ;;
          let '(section_rect_width, section_rect_height,
                section_rect_center_y) := rect in
          for_each (group_event_sequences section)
            (fun seq =>
               draw_event_sequence_annotations seq section depth
                 section_rect_center_y section_rect_width
                 section_rect_height root_section_width
                 height_is_depth_based) ;;;
          let non_build_side_y_of_next_section :=
            (bottom_y_current_section
             + section_rect_height * build_direction_factor self)%Q in
          (fix loop (cs : list Child) (child_section_index : nat)
             {struct cs} : M unit :=
             match cs with
             | [] => ret tt
             | ChildSection child :: rest =>
                 process_section child (depth + 1)
                   non_build_side_y_of_next_section child_section_index
                   root_section_width height_is_depth_based ;;;
                 loop rest (S child_section_index)
             | ChildMessage child :: rest =>
                 draw_event child depth bottom_y_current_section
                   section_rect_width section_rect_height
                   root_section_width height_is_depth_based ;;;
                 loop rest child_section_index
             end) section_children 0%nat ;;;
          ret None
      end
  end.

(** ** Public interface *)

Definition clear_lists : M unit :=
  fun st => (inr tt, {| commands := [];
                        used_text_areas := [];
                        calls := calls st |}).

Definition generate : M (list Command) :=
  clear_lists ;;;
  (if draw_timeline self then draw_base_timeline ;;; draw_ticks
   else ret tt) ;;;
  process_section (root_section self) 0
    (base_timeline_position_y self
     + (timeline_tick_height self / 2 + 0.1)
       * build_direction_factor self)%Q
    0 (-1)%Q process_section_default ;;;
  fun st => (inr (commands st), st).

End Methods.

(** The state of a visualizer that has not generated yet. *)
Definition initial_state : State :=
  {| commands := []; used_text_areas := []; calls := [] |}.

(** ** Notions used to state the properties *)

(** The point-events of a list of children, in list order. *)
Fixpoint events_of (cs : list Child) : list LogMessage :=
  match cs with
  | [] => []
  | ChildMessage m :: rest => m :: events_of rest
  | ChildSection _ :: rest => events_of rest
  end.

(** The pieces into which the child sections cut a list of children: the
    events before the first section, between two sections, after the last
    one.  A piece is empty where two sections are adjacent. *)
Fixpoint split_at_sections (cs : list Child) : list (list LogMessage) :=
  match cs with
  | [] => [[]]
  | ChildMessage m :: rest =>
      match split_at_sections rest with
      | p :: ps => (m :: p) :: ps
      | [] => [[m]]
      end
  | ChildSection _ :: rest => [] :: split_at_sections rest
  end.

Definition nonempty {A} (l : list A) : bool :=
  match l with [] => false | _ :: _ => true end.

(** The runs as the specification words them: the maximal contiguous
    subsequences of point-events, none interrupted by a section. *)
Definition maximal_runs (cs : list Child) : list (list LogMessage) :=
  filter nonempty (split_at_sections cs).

(** [t] is the latest end among the child sections of [parent] that end at
    or before [bound]. *)
Definition latest_end_before (parent : LogSection) (bound t : Z) : Prop :=
  (exists s, In (ChildSection s) (ParseLogs.children parent)
             /\ ParseLogs.end_time s = Some t /\ t <= bound)
  /\ forall s e, In (ChildSection s) (ParseLogs.children parent) ->
                 ParseLogs.end_time s = Some e -> e <= bound -> e <= t.

Definition no_section_ends_before (parent : LogSection) (bound : Z) : Prop :=
  forall s e, In (ChildSection s) (ParseLogs.children parent) ->
              ParseLogs.end_time s = Some e -> ~ e <= bound.

(** [t] is the earliest start among the child sections of [parent] that
    start at or after [bound]. *)
Definition earliest_start_after (parent : LogSection) (bound t : Z) : Prop :=
  (exists s, In (ChildSection s) (ParseLogs.children parent)
             /\ ParseLogs.start_time s = t /\ bound <= t)
  /\ forall s, In (ChildSection s) (ParseLogs.children parent) ->
               bound <= ParseLogs.start_time s -> t <= ParseLogs.start_time s.

Definition no_section_starts_after (parent : LogSection) (bound : Z) : Prop :=
  forall s, In (ChildSection s) (ParseLogs.children parent) ->
            ~ bound <= ParseLogs.start_time s.

(** Every child section of [parent] has ended. *)
Definition children_closed (parent : LogSection) : Prop :=
  forall s, In (ChildSection s) (ParseLogs.children parent) ->
            ParseLogs.end_time s <> None.

(** The width a command gives to a box; a connector has none. *)
Definition box_width (c : Command) : option Q :=
  match c with
  | generate_rectangle _ _ _ w _ _ => Some w
  | get_text_geometry _ _ _ _ w _ _ => Some w
  | generate_rectangle_between_2d _ _ _ _ _ _ => None
  end.

(** The vertical centre a command gives to a box. *)
Definition box_center_y (c : Command) : option Q :=
  match c with
  | generate_rectangle _ cy _ _ _ _ => Some cy
  | get_text_geometry _ _ cy _ _ _ _ => Some cy
  | generate_rectangle_between_2d _ _ _ _ _ _ => None
  end.

(** The section height of the sizing mode in force, as the annotation
    renderer takes it for its row offset. *)
Definition row_height (depth : nat) (parent_section_rect_width
    root_section_width : Q) (height_is_depth_based : bool) : Q :=
  if height_is_depth_based
  then (0.15 * get_depth_scale depth * (root_section_width / 2))%Q
  else (parent_section_rect_width / 4)%Q.

(** A computation adds to the call history only calls that carry the
    flag [flag], whether it returns or raises. *)
Definition calls_flagged {A} (flag : bool) (m : M A) : Prop :=
  forall st,
  exists tr,
    calls (snd (m st)) = calls st ++ tr
    /\ Forall (fun c => call_flag c = flag) tr.

(** A computation returns and leaves the call history as it found it. *)
Definition calls_kept {A} (m : M A) : Prop :=
  forall st, exists a st', m st = (inr a, st') /\ calls st' = calls st.



(** ** The packing of the annotation boxes in float arithmetic

    The three assignments of [draw_event_sequence_annotations] that pack
    the boxes of a run, [margin], [remaining_space] and
    [annotation_rect_width], once on the primitive floats and once on the
    rationals with every operation rounded to binary64.  The literal
    [0.01] is the float nearest to it. *)

Definition packing_float (available_width : float)
    (num_events_in_sequence : nat) : float * float :=
  let n := Z.of_nat num_events_in_sequence in
  let margin := (0x1.47ae147ae147bp-7 * available_width)%float in
  let remaining_space :=
    (available_width - margin * float_of_Z (n - 1))%float in
  let annotation_rect_width := (remaining_space / float_of_Z n)%float in
  (margin, annotation_rect_width).

Definition packing_binary64 (available_width : Q)
    (num_events_in_sequence : nat) : Q * Q :=
  let n := inject_Z (Z.of_nat num_events_in_sequence) in
  let margin := fmul (round_binary64 0.01) available_width in
  let remaining_space := fsub available_width (fmul margin (n - 1)) in
  let annotation_rect_width := fdiv remaining_space n in
  (margin, annotation_rect_width).

(** The sum of the specification, [n*box_width + (n-1)*margin], evaluated
    as Python evaluates it. *)
Definition packed_width_float (available_width : float)
    (num_events_in_sequence : nat) : float :=
  let n := Z.of_nat num_events_in_sequence in
  let '(margin, annotation_rect_width) :=
    packing_float available_width num_events_in_sequence in
  (float_of_Z n * annotation_rect_width
   + float_of_Z (n - 1) * margin)%float.

Definition packed_width_binary64 (available_width : Q)
    (num_events_in_sequence : nat) : Q :=
  let n := inject_Z (Z.of_nat num_events_in_sequence) in
  let '(margin, annotation_rect_width) :=
    packing_binary64 available_width num_events_in_sequence in
  fadd (fmul n annotation_rect_width) (fmul (n - 1) margin).

(** [time_to_x] on the primitive floats: [total_seconds] divides the
    microseconds by [10**6], then comes the product with the scale. *)
Definition time_to_x_float (start_time timestamp : Z)
    (ndc_units_per_second : float) : float :=
  let elapsed_seconds :=
    (float_of_Z (timestamp - start_time) / 1000000)%float in
  (elapsed_seconds * ndc_units_per_second)%float.

(** The statement [if current_seq: event_sequences.append(current_seq)],
    which [group_event_sequences] runs at a section and after its loop. *)
Definition close_run (event_sequences : list (list LogMessage))
    (current_seq : list LogMessage) : list (list LogMessage) :=
  match current_seq with
  | [] => event_sequences
  | _ :: _ => event_sequences ++ [current_seq]
  end.

(** Ascending order of the temporal anchors. *)
Definition anchor_le (a b : Child) : Prop := anchor a <= anchor b.

(** Ascending temporal order of two children: a point-event lies at its
    timestamp and a section begins at its start time. *)
Definition temporal_le (a b : Child) : Prop :=
  match a, b with
  | ChildMessage m, ChildMessage m' => timestamp m <= timestamp m'
  | ChildMessage m, ChildSection s => timestamp m <= ParseLogs.start_time s
  | ChildSection s, ChildMessage m => ParseLogs.start_time s <= timestamp m
  | ChildSection s, ChildSection s' =>
      ParseLogs.start_time s <= ParseLogs.start_time s'
  end.

(** Ascending order of the timestamps of point-events. *)
Definition timestamp_le (a b : LogMessage) : Prop :=
  timestamp a <= timestamp b.

(** ** A worked trace

    A root section of two seconds holding a child section from 0.5 s to
    1.0 s and one point-event at 1.5 s. *)

Definition demo_event : LogMessage :=
  {| timestamp := 1500000; message := " done " |}.

Definition demo_child : LogSection :=
  MkLogSection "child" 500000 (Some 1000000) [].

Definition demo_root : LogSection :=
  MkLogSection "root" 0 (Some 2000000)
    [ChildSection demo_child; ChildMessage demo_event].

Definition demo : TimelineVisualizer :=
  {| root_section := demo_root;
     build_direction_factor := 1;
     ndc_units_per_second := 0.5;
     use_custom_root_section_height := true;
     custom_root_section_height := 0.01;
     base_timeline_position_y := 0;
     draw_timeline := true;
     timeline_tick_width := 0.01;
     timeline_tick_height := 0.1;
     start_time := 0;
     end_time := 2000000;
     total_duration := (total_seconds 2000000 * 1000000)%Q |}.

(** A root section of two seconds holding ten point-events, a tenth of a
    second apart, and no section. *)
Definition packed_run : list LogMessage :=
  map (fun k => {| timestamp := Z.of_nat k * 100000; message := "e" |})
      (seq 1 10).

Definition packed_root : LogSection :=
  MkLogSection "root" 0 (Some 2000000) (map ChildMessage packed_run).

Definition packed : TimelineVisualizer :=
  {| root_section := packed_root;
     build_direction_factor := 1;
     ndc_units_per_second := 0.5;
     use_custom_root_section_height := true;
     custom_root_section_height := 0.01;
     base_timeline_position_y := 0;
     draw_timeline := true;
     timeline_tick_width := 0.01;
     timeline_tick_height := 0.1;
     start_time := 0;
     end_time := 2000000;
     total_duration := (total_seconds 2000000 * 1000000)%Q |}.

(** A closed root whose children are a point-event and a section that
    never ended. *)
Definition open_child : LogSection :=
  MkLogSection "open" 500000 None [].

Definition root_with_open_child : LogSection :=
  MkLogSection "root" 0 (Some 2000000)
    [ChildMessage {| timestamp := 1000000; message := "e" |};
     ChildSection open_child].

Definition visualizer_with_open_child : TimelineVisualizer :=
  {| root_section := root_with_open_child;
     build_direction_factor := 1;
     ndc_units_per_second := 0.5;
     use_custom_root_section_height := true;
     custom_root_section_height := 0.01;
     base_timeline_position_y := 0;
     draw_timeline := true;
     timeline_tick_width := 0.01;
     timeline_tick_height := 0.1;
     start_time := 0;
     end_time := 2000000;
     total_duration := (total_seconds 2000000 * 1000000)%Q |}.

(** ** Notions used by the further properties *)

(** The three components of a colour. *)
Definition red (c : rgb) : Q := fst (fst c).
Definition green (c : rgb) : Q := snd (fst c).
Definition blue (c : rgb) : Q := snd c.

(** A computation only appends to the three lists of the state, and what it
    appends and returns does not depend on what the lists held. *)
Definition appends {A} (m : M A) : Prop :=
  exists r out areas tr,
    forall st,
      m st = (r, {| commands := commands st ++ out;
                    used_text_areas := used_text_areas st ++ areas;
                    calls := calls st ++ tr |}).

(** The [for child in section.children] loop of [process_section], with
    the recursive call and the event branch as parameters. *)
Definition children_loop (walk : LogSection -> nat -> M (option Q))
    (mark : LogMessage -> M unit) : list Child -> nat -> M unit :=
  fix loop (cs : list Child) (child_section_index : nat) {struct cs}
    : M unit :=
    match cs with
    | [] => ret tt
    | ChildSection child :: rest =>
        walk child child_section_index ;;;
        loop rest (S child_section_index)
    | ChildMessage child :: rest =>
        mark child ;;;
        loop rest child_section_index
    end.

(** [c] is not a section left open. *)
Definition child_closed (c : Child) : bool :=
  match c with
  | ChildSection s =>
      match ParseLogs.end_time s with Some _ => true | None => false end
  | ChildMessage _ => true
  end.

(** The walk of a section goes through: below every section that is
    rendered, a point-event never stands beside a section left open. *)
Fixpoint walk_safe (section : LogSection) : bool :=
  match section with
  | MkLogSection _ _ None _ => true
  | MkLogSection _ _ (Some _) cs =>
      (negb (nonempty (events_of cs)) || forallb child_closed cs)
      && forallb (fun c => match c with
                           | ChildSection s => walk_safe s
                           | ChildMessage _ => true
                           end) cs
  end.

(** The commands a walk emits: two for a rendered section, four for each of
    its point-events, and those of its child sections; none for a section
    left open. *)
Fixpoint command_count (section : LogSection) : nat :=
  match section with
  | MkLogSection _ _ None _ => 0
  | MkLogSection _ _ (Some _) cs =>
      2 + 4 * List.length (events_of cs)
      + list_sum (map (fun c => match c with
                                | ChildSection s => command_count s
                                | ChildMessage _ => 0%nat
                                end) cs)
  end.

(** The outcome of a walk: it returns after [command_count] commands when
    the section is safe and raises [TypeError] otherwise. *)
Definition walk_outcome (section : LogSection) (m : M (option Q)) : Prop :=
  forall st,
    (walk_safe section = true ->
     exists r st',
       m st = (inr r, st')
       /\ List.length (commands st')
          = (List.length (commands st) + command_count section)%nat)
    /\ (walk_safe section = false -> exists st', m st = (inl TypeError, st')).

(** A computation leaves the claimed text areas as it found them, whether
    it returns or raises. *)
Definition areas_kept {A} (m : M A) : Prop :=
  forall st, used_text_areas (snd (m st)) = used_text_areas st.

(** The box the annotation loop draws at its turn [i]. *)
Definition annotation_box (lay : AnnotationLayout) (i : nat) : Command :=
  generate_rectangle
    (available_area_x_start lay
     + inject_Z (Z.of_nat i) * (annotation_rect_width lay + margin lay)
     + annotation_rect_width lay / 2)%Q
    (annotation_rect_center_y lay) 0 (annotation_rect_width lay)
    (annotation_rect_height lay) (0.4, 0.6, 0.8)%Q.

(** * Properties *)

(** ** Time mapper *)

Lemma demo_is_default_visualizer : init_default demo_root = inr demo.
Proof. reflexivity. Qed.

Lemma total_seconds_lt (a b : Z) :
  a < b -> (total_seconds a < total_seconds b)%Q.
Proof.
  intros H. unfold total_seconds, Qdiv.
  apply Qmult_lt_compat_r; [reflexivity|].
  rewrite <- Zlt_Qlt. exact H.
Qed.

(** C1: for a positive scale [ndc_units_per_second], [time_to_x] is strictly
    increasing in its timestamp, and it maps the visualizer's [start_time]
    to 0. *)
Theorem time_to_x_strictly_increasing (self : TimelineVisualizer) :
  (0 < ndc_units_per_second self)%Q ->
  (forall t1 t2 : Z, t1 < t2 -> (time_to_x self t1 < time_to_x self t2)%Q)
  /\ (time_to_x self (start_time self) == 0)%Q.
Proof.
  intros Hscale. split.
  - intros t1 t2 Hlt. unfold time_to_x.
    apply Qmult_lt_compat_r; [exact Hscale|].
    apply total_seconds_lt. lia.
  - unfold time_to_x, total_seconds. rewrite Z.sub_diag.
    unfold Qdiv. rewrite !Qmult_0_l. reflexivity.
Qed.

Lemma time_to_x_strictly_increasing_witness :
  (0 < ndc_units_per_second demo)%Q
  /\ ((forall t1 t2 : Z, t1 < t2 -> (time_to_x demo t1 < time_to_x demo t2)%Q)
      /\ (time_to_x demo (start_time demo) == 0)%Q).
Proof.
  split; [reflexivity|].
  apply (time_to_x_strictly_increasing demo). reflexivity.
Defined.

(** ** Section renderer *)

(** What [draw_section_rect] does on a section that has ended. *)
Lemma draw_section_rect_closed (self : TimelineVisualizer)
    (section : LogSection) (e : Z) (depth index : nat) (bottom_y rw : Q)
    (flag : bool) (st : State) :
  ParseLogs.end_time section = Some e ->
  let x_start := time_to_x self (ParseLogs.start_time section) in
  let x_end := time_to_x self e in
  let width := (x_end - x_start)%Q in
  let height0 :=
    if flag then get_section_rect_height_depth_based rw depth
    else get_section_rect_height_aspect_ratio_based width in
  let height :=
    if String.eqb (ParseLogs.name section) "root" then
      if use_custom_root_section_height self
      then custom_root_section_height self else height0
    else height0 in
  let cy := (bottom_y + (height / 2) * build_direction_factor self)%Q in
  let cx := ((x_start + x_end) / 2)%Q in
  exists label,
    draw_section_rect self section depth index bottom_y rw flag st
    = (inr (width, height, cy),
       {| commands :=
            (commands st
             ++ [generate_rectangle cx cy 0 width height
                   (generate_color depth index)])
            ++ [get_text_geometry label cx cy 0.01%Q width height
                  (0.9, 0.9, 0.9)%Q];
          used_text_areas := used_text_areas st;
          calls := calls st ++ [call_draw_section_rect flag] |}).
Proof.
  intros He. cbv zeta.
  unfold draw_section_rect, bind, enter, lift, commands_append, ret.
  rewrite He. cbn [commands used_text_areas calls].
  eexists. reflexivity.
Qed.

(** C7: the rectangle emitted for a rendered section has width
    [time_to_x(end_time) - time_to_x(start_time)], whatever the sizing-mode
    flag and the depth. *)
Theorem draw_section_rect_width (self : TimelineVisualizer)
    (section : LogSection) (e : Z) (depth index : nat) (bottom_y rw : Q)
    (flag : bool) (st : State) :
  ParseLogs.end_time section = Some e ->
  let width :=
    (time_to_x self e - time_to_x self (ParseLogs.start_time section))%Q in
  exists cx cy height color label label_color st',
    draw_section_rect self section depth index bottom_y rw flag st
    = (inr (width, height, cy), st')
    /\ commands st'
       = commands st
         ++ [generate_rectangle cx cy 0 width height color;
             get_text_geometry label cx cy 0.01%Q width height label_color].
Proof.
  intros He width.
  destruct (draw_section_rect_closed self section e depth index bottom_y rw
              flag st He) as [label Hrun].
  do 7 eexists. split; [exact Hrun|].
  cbn [commands]. rewrite <- app_assoc. reflexivity.
Qed.

Lemma draw_section_rect_width_witness :
  ParseLogs.end_time demo_child = Some 1000000
  /\ exists cx cy height color label label_color st',
       draw_section_rect demo demo_child 1 0 0.16%Q 1 false initial_state
       = (inr ((time_to_x demo 1000000
                - time_to_x demo (ParseLogs.start_time demo_child))%Q,
               height, cy), st')
       /\ commands st'
          = commands initial_state
            ++ [generate_rectangle cx cy 0
                  (time_to_x demo 1000000
                   - time_to_x demo (ParseLogs.start_time demo_child))%Q
                  height color;
                get_text_geometry label cx cy 0.01%Q
                  (time_to_x demo 1000000
                   - time_to_x demo (ParseLogs.start_time demo_child))%Q
                  height label_color].
Proof.
  split; [reflexivity|].
  apply (draw_section_rect_width demo demo_child 1000000 1 0 0.16%Q 1 false
           initial_state).
  reflexivity.
Defined.

(** C8: a rendered section named "root" gets the configured
    [custom_root_section_height] as the height of its rectangle when the
    override is on, in the depth-based and in the aspect-ratio-based mode
    alike. *)
Theorem draw_section_rect_root_height (self : TimelineVisualizer)
    (section : LogSection) (e : Z) (depth index : nat) (bottom_y rw : Q)
    (flag : bool) (st : State) :
  ParseLogs.name section = "root"%string ->
  use_custom_root_section_height self = true ->
  ParseLogs.end_time section = Some e ->
  exists cx cy width color label label_color st',
    draw_section_rect self section depth index bottom_y rw flag st
    = (inr (width, custom_root_section_height self, cy), st')
    /\ commands st'
       = commands st
         ++ [generate_rectangle cx cy 0 width
               (custom_root_section_height self) color;
             get_text_geometry label cx cy 0.01%Q width
               (custom_root_section_height self) label_color].
Proof.
  intros Hname Hcustom He.
  destruct (draw_section_rect_closed self section e depth index bottom_y rw
              flag st He) as [label Hrun].
  rewrite Hname, Hcustom in Hrun. cbn [String.eqb Ascii.eqb Bool.eqb] in Hrun.
  do 7 eexists. split; [exact Hrun|].
  cbn [commands]. rewrite <- app_assoc. reflexivity.
Qed.

Lemma draw_section_rect_root_height_witness :
  ParseLogs.name demo_root = "root"%string
  /\ use_custom_root_section_height demo = true
  /\ ParseLogs.end_time demo_root = Some 2000000
  /\ exists cx cy width color label label_color st',
       draw_section_rect demo demo_root 0 0 0.15%Q 1 false initial_state
       = (inr (width, custom_root_section_height demo, cy), st')
       /\ commands st'
          = commands initial_state
            ++ [generate_rectangle cx cy 0 width
                  (custom_root_section_height demo) color;
                get_text_geometry label cx cy 0.01%Q width
                  (custom_root_section_height demo) label_color].
Proof.
  split; [reflexivity|]. split; [reflexivity|]. split; [reflexivity|].
  apply (draw_section_rect_root_height demo demo_root 2000000 0 0 0.15%Q 1
           false initial_state); reflexivity.
Defined.

(** ** Duration labels *)



Lemma pow2_pos (e : Z) : (0 < 2 ^ e)%Q.
Proof. apply Qpower_0_lt. reflexivity. Qed.

Lemma pow2_plus (a b : Z) : (2 ^ (a + b) == 2 ^ a * 2 ^ b)%Q.
Proof. apply Qpower_plus. discriminate. Qed.


Lemma pow2_inject (n : Z) : 0 <= n -> (2 ^ n == inject_Z (2 ^ n))%Q.
Proof. intros H. symmetry. apply (Zpower_Qpower 2 n H). Qed.

Lemma pow2_Z_pos (a : Z) : 0 <= a -> 0 < 2 ^ a.
Proof. intros H. apply Z.pow_pos_nonneg; lia. Qed.

Lemma binade_low (n : Z) (d : positive) (a b : Z) :
  0 <= a -> 0 <= b -> 2 ^ a <= n -> Z.pos d < 2 ^ (b + 1) ->
  (2 ^ (a - b - 1) <= n # d)%Q.
Proof.
  intros Ha Hb Hn Hd.
  replace (a - b - 1) with (a + - (b + 1)) by lia.
  rewrite pow2_plus, Qpower_opp.
  rewrite !pow2_inject by lia.
  pose proof (pow2_Z_pos a Ha) as HA.
  pose proof (pow2_Z_pos (b + 1) ltac:(lia)) as HB.
  generalize dependent (2 ^ a). generalize dependent (2 ^ (b + 1)).
  intros B HdB HB A HAn HA.
  apply Qle_shift_div_r.
  - unfold Qlt, inject_Z, Qnum, Qden. lia.
  - unfold Qle, Qmult, inject_Z, Qnum, Qden.
    rewrite Pos.mul_1_r, Z.mul_1_r. nia.
Qed.

Lemma binade_high (n : Z) (d : positive) (a b : Z) :
  0 <= a -> 0 <= b -> 0 < n -> n < 2 ^ (a + 1) -> 2 ^ b <= Z.pos d ->
  (n # d < 2 ^ (a - b + 1))%Q.
Proof.
  intros Ha Hb Hn0 Hn Hd.
  replace (a - b + 1) with ((a + 1) + - b) by lia.
  rewrite pow2_plus, Qpower_opp.
  rewrite !pow2_inject by lia.
  pose proof (pow2_Z_pos (a + 1) ltac:(lia)) as HA.
  pose proof (pow2_Z_pos b Hb) as HB.
  generalize dependent (2 ^ (a + 1)). generalize dependent (2 ^ b).
  intros B HdB HB A HAn HA.
  apply Qlt_shift_div_l.
  - unfold Qlt, inject_Z, Qnum, Qden. lia.
  - unfold Qlt, Qmult, inject_Z, Qnum, Qden.
    rewrite Pos.mul_1_r, Z.mul_1_r. nia.
Qed.

(** The binade of a positive rational holds it. *)
Lemma binade_spec (q : Q) :
  (0 < q)%Q -> (2 ^ binade q <= q)%Q /\ (q < 2 ^ (binade q + 1))%Q.
Proof.
  intros Hq. destruct q as [n d].
  assert (Hn : 0 < n).
  { unfold Qlt in Hq. cbn in Hq. lia. }
  pose proof (Z.log2_spec n Hn) as [Hn1 Hn2].
  pose proof (Z.log2_spec (Zpos d) (Pos2Z.is_pos d)) as [Hd1 Hd2].
  pose proof (Z.log2_nonneg n) as Hln.
  pose proof (Z.log2_nonneg (Zpos d)) as Hld.
  unfold binade. cbn [Qnum Qden].
  destruct (Qle_bool (2 ^ (Z.log2 n - Z.log2 (Z.pos d))) (n # d)) eqn:E.
  - apply Qle_bool_iff in E. split; [exact E|].
    apply binade_high; assumption.
  - split; [apply binade_low; assumption|].
    replace (Z.log2 n - Z.log2 (Z.pos d) - 1 + 1)
      with (Z.log2 n - Z.log2 (Z.pos d)) by lia.
    apply Qnot_le_lt. intros Hle. apply Qle_bool_iff in Hle. congruence.
Qed.






Lemma round_half_even_near (x : Q) :
  (x - (1 # 2) <= inject_Z (round_half_even x) <= x + (1 # 2))%Q.
Proof.
  pose proof (Qfloor_le x) as Hlo. pose proof (Qlt_floor x) as Hhi.
  unfold round_half_even.
  rewrite inject_Z_plus in Hhi. change (inject_Z 1) with 1%Q in Hhi.
  destruct (x - inject_Z (Qfloor x) ?= 1 # 2)%Q eqn:E.
  - apply Qeq_alt in E. destruct (Z.even (Qfloor x)).
    + lra.
    + rewrite inject_Z_plus. change (inject_Z 1) with 1%Q. lra.
  - apply Qlt_alt in E. lra.
  - apply Qgt_alt in E. rewrite inject_Z_plus. change (inject_Z 1) with 1%Q.
    lra.
Qed.

(** Rounding to binary64 moves a positive rational by at most [2^-53] of
    it, or by half the spacing of the subnormal numbers. *)
Lemma round_binary64_pos_near (q : Q) :
  (0 < q)%Q ->
  (q - (2 ^ (-53) * q + 2 ^ (-1075)) <= round_binary64_pos q
   <= q + (2 ^ (-53) * q + 2 ^ (-1075)))%Q.
Proof.
  intros Hq. destruct (binade_spec q Hq) as [Hlo _].
  unfold round_binary64_pos.
  set (e := Z.max (binade q - 52) (-1074)).
  assert (He : (0 < 2 ^ e)%Q) by apply pow2_pos.
  pose proof (round_half_even_near (q / 2 ^ e)) as Hr.
  set (r := inject_Z (round_half_even (q / 2 ^ e))) in *.
  assert (Hq' : (q / 2 ^ e * 2 ^ e == q)%Q).
  { field. intros E. rewrite E in He. discriminate. }
  assert (Hhalf : ((1 # 2) * 2 ^ e <= 2 ^ (-53) * q + 2 ^ (-1075))%Q).
  { assert (H53 : (0 < 2 ^ (-53))%Q) by apply pow2_pos.
    assert (H1075 : (0 < 2 ^ (-1075))%Q) by apply pow2_pos.
    assert (Hsplit : ((1 # 2) * 2 ^ e == 2 ^ (e - 1))%Q).
    { replace (e - 1) with (e + -1) by lia. rewrite pow2_plus.
      change (2 ^ (-1))%Q with (1 # 2)%Q. apply Qmult_comm. }
    rewrite Hsplit.
    destruct (Z.max_spec (binade q - 52) (-1074)) as [[_ Hm] | [_ Hm]];
      fold e in Hm.
    - rewrite Hm. change (2 ^ (-1074 - 1))%Q with (2 ^ (-1075))%Q.
      assert ((0 <= 2 ^ (-53) * q)%Q) by nra. lra.
    - rewrite Hm. replace (binade q - 52 - 1) with (-53 + binade q) by lia.
      rewrite pow2_plus.
      assert ((2 ^ (-53) * 2 ^ binade q <= 2 ^ (-53) * q)%Q) by nra.
      lra. }
  set (p := (2 ^ e)%Q) in *. set (x := (q / p)%Q) in *.
  set (b := (2 ^ (-53) * q + 2 ^ (-1075))%Q) in *.
  nra.
Qed.

Lemma round_binary64_near (q : Q) :
  (q - (2 ^ (-53) * Qabs q + 2 ^ (-1075)) <= round_binary64 q
   <= q + (2 ^ (-53) * Qabs q + 2 ^ (-1075)))%Q.
Proof.
  assert (H1075 : (0 < 2 ^ (-1075))%Q) by apply pow2_pos.
  unfold round_binary64.
  destruct (q ?= 0)%Q eqn:E.
  - apply Qeq_alt in E. pose proof (Qabs_nonneg q) as Ha.
    assert (H53 : (0 < 2 ^ (-53))%Q) by apply pow2_pos.
    set (u := (2 ^ (-53))%Q) in *. set (a := Qabs q) in *.
    set (h := (2 ^ (-1075))%Q) in *. nra.
  - apply Qlt_alt in E.
    pose proof (round_binary64_pos_near (- q) ltac:(lra)) as H.
    rewrite (Qabs_neg q) by lra. lra.
  - apply Qgt_alt in E.
    pose proof (round_binary64_pos_near q E) as H.
    rewrite (Qabs_pos q) by lra. exact H.
Qed.

Lemma round_binary64_near_nonneg (q : Q) :
  (0 <= q)%Q ->
  (q - (2 ^ (-53) * q + 2 ^ (-1075)) <= round_binary64 q
   <= q + (2 ^ (-53) * q + 2 ^ (-1075)))%Q.
Proof.
  intros H. pose proof (round_binary64_near q) as Hn.
  rewrite (Qabs_pos q H) in Hn. exact Hn.
Qed.

Lemma round_binary64_near_rel (q eta : Q) :
  (0 <= q)%Q -> (2 ^ (-1075) <= eta)%Q ->
  (q - (1 # 9007199254740992) * q - eta <= round_binary64 q
   <= q + (1 # 9007199254740992) * q + eta)%Q.
Proof.
  intros Hq Heta. pose proof (round_binary64_near_nonneg q Hq) as H.
  change (2 ^ (-53))%Q with (1 # 9007199254740992)%Q in H.
  set (h := (2 ^ (-1075))%Q) in *. lra.
Qed.

(** The two roundings agree with the primitive floats on sample quotients:
    [round_binary64] of the exact quotient is the float quotient. *)
Lemma round_binary64_matches_floats :
  option_map Qred (Q_of_float (10005 / 1000)%float)
  = Some (Qred (fdiv 10005 1000))
  /\ option_map Qred (Q_of_float (65000000 / 60000000)%float)
     = Some (Qred (fdiv 65000000 (60 * 1000000)))
  /\ option_map Qred (Q_of_float (1 / 3)%float) = Some (Qred (fdiv 1 3))
  /\ option_map Qred (Q_of_float (999999 / 1000000)%float)
     = Some (Qred (fdiv 999999 1000000))
  /\ option_map Qred (Q_of_float (0x1.8p-1000 / 0x1p75)%float)
     = Some (Qred (fdiv (3 * 2 ^ (-1001)) (2 ^ 75))).
Proof. repeat split; vm_compute; reflexivity. Qed.



Lemma Qle_bool_false (a b : Q) : Qle_bool a b = false -> (b < a)%Q.
Proof.
  intros H. apply Qnot_le_lt. intros Hle.
  apply Qle_bool_iff in Hle. congruence.
Qed.







(** Below one microsecond no factor is reached and the fallback prints the
    duration in microseconds without decimals. *)
Lemma format_duration_us_below_one (d : Q) :
  (d < 1)%Q ->
  format_duration_us d = (format_fixed 0 d ++ "µs")%string.
Proof.
  intros Hd.
  unfold format_duration_us. cbn [units rev app format_duration_loop].
  assert (E : forall f, (1 <= f)%Q -> Qle_bool f d = false).
  { intros f Hf. destruct (Qle_bool f d) eqn:E; [|reflexivity].
    apply Qle_bool_iff in E. lra. }
  rewrite !E by lra. reflexivity.
Qed.




(** The decimals are those of the float quotient, not of the exact one:
    10005 µs is 10.005 ms exactly, a tie between 10.00 and 10.01, and the
    float nearest to it lies above the tie. *)
Lemma format_duration_us_float_quotient :
  format_duration_us 10005 = "10.01ms"%string
  /\ (10 + 5 # 1000 < fdiv 10005 1000)%Q
  /\ format_duration_us 999999 = "1000ms"%string
  /\ format_duration_us 0 = "0µs"%string.
Proof. repeat split; vm_compute; reflexivity. Qed.

(** ** Event-sequence grouper *)

Section SortedFacts.

Context {A : Type} (key : A -> Z).

Lemma insert_by_perm (x : A) (l : list A) :
  Permutation (x :: l) (insert_by key x l).
Proof.
  induction l as [|y l IH]; cbn [insert_by].
  - apply Permutation_refl.
  - destruct (key x <=? key y).
    + apply Permutation_refl.
    + eapply Permutation_trans; [apply perm_swap|].
      apply perm_skip. exact IH.
Qed.

Lemma sorted_perm (l : list A) : Permutation l (sorted key l).
Proof.
  induction l as [|x l IH]; cbn [sorted fold_right].
  - apply Permutation_refl.
  - eapply Permutation_trans; [apply perm_skip; exact IH|].
    apply insert_by_perm.
Qed.

Lemma insert_by_ascending (x : A) (l : list A) :
  StronglySorted (fun a b => key a <= key b) l ->
  StronglySorted (fun a b => key a <= key b) (insert_by key x l).
Proof.
  induction l as [|y l IH]; intros Hs; cbn [insert_by].
  - constructor; constructor.
  - inversion Hs as [|? ? Hl Hy]; subst.
    destruct (key x <=? key y) eqn:E.
    + apply Z.leb_le in E. constructor; [exact Hs|].
      constructor; [exact E|].
      eapply Forall_impl; [|exact Hy]. cbn. intros. lia.
    + apply Z.leb_gt in E. constructor; [apply IH; exact Hl|].
      eapply Permutation_Forall; [apply insert_by_perm|].
      constructor; [lia | exact Hy].
Qed.

Lemma sorted_ascending (l : list A) :
  StronglySorted (fun a b => key a <= key b) (sorted key l).
Proof.
  induction l as [|x l IH]; cbn [sorted fold_right].
  - constructor.
  - apply insert_by_ascending. exact IH.
Qed.

(** The sort is stable: the elements of one key keep their order. *)
Lemma insert_by_stable (k : Z) (x : A) (l : list A) :
  StronglySorted (fun a b => key a <= key b) l ->
  filter (fun a => key a =? k) (insert_by key x l)
  = filter (fun a => key a =? k) (x :: l).
Proof.
  induction l as [|y l IH]; intros Hs; cbn [insert_by]; [reflexivity|].
  inversion Hs as [|? ? Hl Hy]; subst.
  destruct (key x <=? key y) eqn:E; [reflexivity|].
  apply Z.leb_gt in E. cbn [filter]. rewrite (IH Hl). cbn [filter].
  destruct (key x =? k) eqn:Ex, (key y =? k) eqn:Ey; try reflexivity.
  apply Z.eqb_eq in Ex, Ey. lia.
Qed.

Lemma sorted_stable (k : Z) (l : list A) :
  filter (fun a => key a =? k) (sorted key l)
  = filter (fun a => key a =? k) l.
Proof.
  induction l as [|x l IH]; [reflexivity|].
  cbn [sorted fold_right].
  rewrite insert_by_stable by apply sorted_ascending.
  cbn [filter]. fold (sorted key l). rewrite IH. reflexivity.
Qed.

End SortedFacts.

Lemma split_at_sections_cons (cs : list Child) :
  exists p ps, split_at_sections cs = p :: ps.
Proof.
  destruct cs as [|[s|m] cs]; cbn [split_at_sections]; eauto.
  destruct (split_at_sections cs); eauto.
Qed.

Lemma filter_nonempty_cons (p : list LogMessage)
    (ps : list (list LogMessage)) :
  filter nonempty (p :: ps) = close_run [] p ++ filter nonempty ps.
Proof. destruct p; reflexivity. Qed.

Lemma close_run_app (es : list (list LogMessage)) (cur : list LogMessage) :
  close_run es cur = es ++ close_run [] cur.
Proof. destruct cur; cbn [close_run app]; [rewrite app_nil_r|]; reflexivity. Qed.

(** The loop keeps in [event_sequences] the closed pieces met so far and in
    [current_seq] the piece still open. *)
Lemma group_loop_pieces (cs : list Child) :
  forall es cur,
  exists p ps,
    split_at_sections cs = p :: ps
    /\ close_run (fst (group_loop cs es cur)) (snd (group_loop cs es cur))
       = es ++ filter nonempty ((cur ++ p) :: ps).
Proof.
  induction cs as [|[s|m] cs IH]; intros es cur; cbn [split_at_sections].
  - exists [], []. split; [reflexivity|].
    cbn [group_loop fst snd]. rewrite app_nil_r, filter_nonempty_cons.
    cbn [filter]. rewrite app_nil_r. apply close_run_app.
  - destruct (split_at_sections_cons cs) as (p & ps & Hp).
    exists [], (p :: ps). split; [rewrite Hp; reflexivity|].
    rewrite app_nil_r, filter_nonempty_cons.
    assert (Hstep : group_loop (ChildSection s :: cs) es cur
                    = group_loop cs (close_run es cur) []).
    { destruct cur; reflexivity. }
    rewrite Hstep.
    destruct (IH (close_run es cur) []) as (p' & ps' & Hp' & Hrun).
    rewrite Hrun. rewrite Hp in Hp'. injection Hp' as <- <-.
    cbn [app]. rewrite (close_run_app es cur), <- app_assoc. reflexivity.
  - destruct (IH es (cur ++ [m])) as (p & ps & Hp & Hrun).
    rewrite Hp. exists (m :: p), ps. split; [reflexivity|].
    cbn [group_loop]. rewrite Hrun, <- app_assoc. reflexivity.
Qed.

(** The grouper computes the maximal runs of the sorted children. *)
Lemma group_event_sequences_refines (section : LogSection) :
  group_event_sequences section
  = maximal_runs (sorted anchor (ParseLogs.children section)).
Proof.
  unfold group_event_sequences, maximal_runs.
  destruct (group_loop_pieces (sorted anchor (ParseLogs.children section))
              [] []) as (p & ps & Hp & Hrun).
  rewrite Hp. cbn [app] in Hrun. rewrite <- Hrun.
  destruct (group_loop _ [] []) as [es cur]. destruct cur; reflexivity.
Qed.

Lemma concat_split_at_sections (cs : list Child) :
  List.concat (split_at_sections cs) = events_of cs.
Proof.
  induction cs as [|[s|m] cs IH]; cbn [split_at_sections events_of].
  - reflexivity.
  - exact IH.
  - destruct (split_at_sections cs) as [|p ps]; cbn [List.concat] in *.
    + rewrite <- IH. reflexivity.
    + rewrite <- IH. reflexivity.
Qed.

Lemma concat_filter_nonempty (l : list (list LogMessage)) :
  List.concat (filter nonempty l) = List.concat l.
Proof.
  induction l as [|[|m p] l IH]; cbn [filter nonempty List.concat app];
    [reflexivity | exact IH | rewrite IH; reflexivity].
Qed.

Lemma split_at_sections_map_messages (run : list LogMessage) :
  split_at_sections (map ChildMessage run) = [run].
Proof.
  induction run as [|m run IH]; cbn [map split_at_sections];
    [|rewrite IH]; reflexivity.
Qed.

(** Joining two lists of children joins the last piece of the first with
    the first piece of the second. *)
Lemma split_at_sections_app (l1 l2 : list Child) :
  exists ps p q qs,
    split_at_sections l1 = ps ++ [p]
    /\ split_at_sections l2 = q :: qs
    /\ split_at_sections (l1 ++ l2) = ps ++ (p ++ q) :: qs.
Proof.
  induction l1 as [|[s|m] l1 IH].
  - destruct (split_at_sections_cons l2) as (q & qs & Hq).
    exists [], [], q, qs. repeat split; assumption.
  - destruct IH as (ps & p & q & qs & H1 & H2 & H12).
    exists ([] :: ps), p, q, qs. cbn [split_at_sections app].
    rewrite H1, H12. repeat split; assumption.
  - destruct IH as (ps & p & q & qs & H1 & H2 & H12).
    cbn [split_at_sections app]. rewrite H1, H12.
    destruct ps as [|h t]; cbn [app].
    + exists [], (m :: p), q, qs. repeat split; assumption.
    + exists ((m :: h) :: t), p, q, qs. repeat split; assumption.
Qed.

(** A section cuts the pieces: none runs across it. *)
Lemma split_at_sections_section (l1 : list Child) (s : LogSection)
    (l2 : list Child) :
  split_at_sections (l1 ++ ChildSection s :: l2)
  = split_at_sections l1 ++ split_at_sections l2.
Proof.
  destruct (split_at_sections_app l1 (ChildSection s :: l2))
    as (ps & p & q & qs & H1 & H2 & H12).
  cbn [split_at_sections] in H2. injection H2 as <- <-.
  rewrite H12, H1, app_nil_r, <- app_assoc. reflexivity.
Qed.

(** Consecutive point-events stay in one piece. *)
Lemma split_at_sections_block (pre : list Child) (run : list LogMessage)
    (post : list Child) :
  exists ps p q qs,
    split_at_sections pre = ps ++ [p]
    /\ split_at_sections post = q :: qs
    /\ split_at_sections (pre ++ map ChildMessage run ++ post)
       = ps ++ (p ++ run ++ q) :: qs.
Proof.
  destruct (split_at_sections_app pre (map ChildMessage run ++ post))
    as (ps & p & q & qs & H1 & H2 & H12).
  destruct (split_at_sections_app (map ChildMessage run) post)
    as (ps' & p' & q' & qs' & H1' & H2' & H12').
  rewrite split_at_sections_map_messages in H1'.
  change [run] with ([] ++ [run]) in H1'.
  apply app_inj_tail in H1'. destruct H1' as [<- <-].
  cbn [app] in H12'. rewrite H12' in H2. injection H2 as <- <-.
  exists ps, p, q', qs'. repeat split; assumption.
Qed.

Lemma filter_nonempty_all (l : list (list LogMessage)) :
  Forall (fun r => r <> []) (filter nonempty l).
Proof.
  apply Forall_forall. intros r Hr. apply filter_In in Hr.
  destruct Hr as [_ Hr]. destruct r; [discriminate Hr | discriminate].
Qed.

Lemma events_of_perm (cs cs' : list Child) :
  Permutation cs cs' -> Permutation (events_of cs) (events_of cs').
Proof.
  induction 1 as [|[s|m] l l' _ IH|[s|m] [s'|m'] l|l l' l'' _ IH1 _ IH2];
    cbn [events_of]; try assumption.
  - apply Permutation_refl.
  - apply perm_skip. exact IH.
  - apply Permutation_refl.
  - apply Permutation_refl.
  - apply Permutation_refl.
  - apply perm_swap.
  - eapply Permutation_trans; eassumption.
Qed.

Lemma events_of_ascending (cs : list Child) :
  StronglySorted anchor_le cs ->
  StronglySorted timestamp_le (events_of cs).
Proof.
  induction 1 as [|c cs _ IH Hc]; cbn [events_of]; [constructor|].
  destruct c as [s|m]; [exact IH|].
  constructor; [exact IH|].
  clear IH. induction Hc as [|c' cs' Hc' _ IH']; cbn [events_of];
    [constructor|].
  destruct c' as [s'|m']; [exact IH'|].
  constructor; [exact Hc' | exact IH'].
Qed.

Lemma StronglySorted_weaken {A} (R R' : A -> A -> Prop) (l : list A) :
  (forall a b, R a b -> R' a b) ->
  StronglySorted R l -> StronglySorted R' l.
Proof.
  intros HR. induction 1 as [|a l _ IH Ha]; constructor; [exact IH|].
  eapply Forall_impl; [|exact Ha]. intros b. apply HR.
Qed.

Lemma anchor_le_temporal (a b : Child) : anchor_le a b -> temporal_le a b.
Proof. destruct a, b; intros H; exact H. Qed.

(** The worked case of the specification: events [e1], [e2], a section [s]
    and an event [e3], in time order, give the runs [[e1; e2]] and
    [[e3]]. *)
Lemma group_event_sequences_two_runs (n : string) (st : Z) (en : option Z)
    (e1 e2 e3 : LogMessage) (s : LogSection) :
  timestamp e1 <= timestamp e2 ->
  timestamp e2 <= ParseLogs.start_time s ->
  ParseLogs.start_time s <= timestamp e3 ->
  group_event_sequences
    (MkLogSection n st en
       [ChildMessage e1; ChildMessage e2; ChildSection s; ChildMessage e3])
  = [[e1; e2]; [e3]].
Proof.
  intros H12 H2s Hs3.
  apply Z.leb_le in H12, H2s, Hs3.
  unfold group_event_sequences.
  cbn [ParseLogs.children sorted fold_right insert_by anchor].
  rewrite Hs3. cbn [insert_by anchor]. rewrite H2s.
  cbn [insert_by anchor]. rewrite H12. reflexivity.
Qed.

(** C2: [group_event_sequences] returns the maximal contiguous runs of the
    direct point-event children of a section, in ascending temporal order.
    The children are put in ascending order of time, a point-event at its
    timestamp and a section at its start time; the runs, put end to end,
    are the point-events of the children so ordered, each child event
    once and in ascending order of timestamp; two point-events with only
    point-events between them lie in one run; no run extends across a child
    section; no run is empty; a section without children has no runs; and
    two events, a section and a third event, in time order, give two runs,
    the first two events and the third. *)
Theorem group_event_sequences_maximal_runs (section : LogSection) :
  let cs := sorted anchor (ParseLogs.children section) in
  let runs := group_event_sequences section in
  (Permutation (ParseLogs.children section) cs
   /\ StronglySorted temporal_le cs)
  /\ runs = maximal_runs cs
  /\ List.concat runs = events_of cs
  /\ Permutation (events_of (ParseLogs.children section)) (List.concat runs)
  /\ StronglySorted timestamp_le (List.concat runs)
  /\ (forall pre a mid b post,
        cs = pre ++ ChildMessage a :: map ChildMessage mid
                 ++ ChildMessage b :: post ->
        exists rs1 r1 r2 rs2,
          runs = rs1 ++ (r1 ++ a :: mid ++ b :: r2) :: rs2
          /\ List.concat rs1 ++ r1 = events_of pre
          /\ r2 ++ List.concat rs2 = events_of post)
  /\ (forall pre s post,
        cs = pre ++ ChildSection s :: post ->
        exists rs1 rs2,
          runs = rs1 ++ rs2
          /\ List.concat rs1 = events_of pre
          /\ List.concat rs2 = events_of post)
  /\ Forall (fun run => run <> []) runs
  /\ (ParseLogs.children section = [] -> runs = [])
  /\ (forall n st en e1 e2 s e3,
        timestamp e1 <= timestamp e2 ->
        timestamp e2 <= ParseLogs.start_time s ->
        ParseLogs.start_time s <= timestamp e3 ->
        group_event_sequences
          (MkLogSection n st en
             [ChildMessage e1; ChildMessage e2; ChildSection s;
              ChildMessage e3])
        = [[e1; e2]; [e3]]).
Proof.
  intros cs runs.
  assert (Hruns : runs = maximal_runs cs)
    by apply group_event_sequences_refines.
  assert (Hcat : List.concat runs = events_of cs).
  { rewrite Hruns. unfold maximal_runs.
    rewrite concat_filter_nonempty. apply concat_split_at_sections. }
  split.
  { split; [apply sorted_perm|].
    apply (StronglySorted_weaken anchor_le); [exact anchor_le_temporal|].
    apply (sorted_ascending anchor). }
  split; [exact Hruns|].
  split; [exact Hcat|].
  split; [rewrite Hcat; apply events_of_perm, sorted_perm|].
  split.
  { rewrite Hcat. apply events_of_ascending.
    apply (sorted_ascending anchor). }
  split.
  { intros pre a mid b post Hcs.
    destruct (split_at_sections_block pre (a :: mid ++ [b]) post)
      as (ps & p & q & qs & Hpre & Hpost & Hall).
    assert (Hshape : pre ++ map ChildMessage (a :: mid ++ [b]) ++ post = cs).
    { rewrite Hcs. cbn [map app]. rewrite map_app, <- app_assoc.
      reflexivity. }
    rewrite Hshape in Hall.
    exists (filter nonempty ps), p, q, (filter nonempty qs).
    split; [|split].
    - rewrite Hruns. unfold maximal_runs. rewrite Hall, filter_app.
      cbn [filter]. replace (nonempty (p ++ (a :: mid ++ [b]) ++ q))
        with true by (destruct p; reflexivity).
      cbn [app]. rewrite <- (app_assoc mid [b] q). reflexivity.
    - rewrite <- concat_split_at_sections, Hpre, concat_app,
        concat_filter_nonempty.
      cbn [List.concat]. rewrite app_nil_r. reflexivity.
    - rewrite <- concat_split_at_sections, Hpost, concat_filter_nonempty.
      reflexivity. }
  split.
  { intros pre s post Hcs.
    exists (maximal_runs pre), (maximal_runs post).
    split; [|split].
    - rewrite Hruns, Hcs. unfold maximal_runs.
      rewrite split_at_sections_section, filter_app. reflexivity.
    - unfold maximal_runs. rewrite concat_filter_nonempty.
      apply concat_split_at_sections.
    - unfold maximal_runs. rewrite concat_filter_nonempty.
      apply concat_split_at_sections. }
  split.
  { rewrite Hruns. apply filter_nonempty_all. }
  split.
  { intros Hnil. rewrite Hruns. unfold cs. rewrite Hnil. reflexivity. }
  intros n st en e1 e2 s e3. apply group_event_sequences_two_runs.
Qed.

(** ** Annotation renderer *)

Lemma fold_left_max_spec (xs : list Z) :
  forall x,
    In (fold_left Z.max xs x) (x :: xs)
    /\ forall y, In y (x :: xs) -> y <= fold_left Z.max xs x.
Proof.
  induction xs as [|z xs IH]; intros x; cbn [fold_left].
  - split; [left; reflexivity|]. intros y [<-|[]]. lia.
  - destruct (IH (Z.max x z)) as [Hin Hmax]. split.
    + destruct Hin as [Hin|Hin]; [|right; right; exact Hin].
      rewrite <- Hin. destruct (Z.max_spec x z) as [[_ ->]|[_ ->]];
        [right; left | left]; reflexivity.
    + intros y [<-|[<-|Hy]].
      * specialize (Hmax (Z.max x z) (or_introl eq_refl)). lia.
      * specialize (Hmax (Z.max x z) (or_introl eq_refl)). lia.
      * apply Hmax. right. exact Hy.
Qed.

Lemma fold_left_min_spec (xs : list Z) :
  forall x,
    In (fold_left Z.min xs x) (x :: xs)
    /\ forall y, In y (x :: xs) -> fold_left Z.min xs x <= y.
Proof.
  induction xs as [|z xs IH]; intros x; cbn [fold_left].
  - split; [left; reflexivity|]. intros y [<-|[]]. lia.
  - destruct (IH (Z.min x z)) as [Hin Hmin]. split.
    + destruct Hin as [Hin|Hin]; [|right; right; exact Hin].
      rewrite <- Hin. destruct (Z.min_spec x z) as [[_ ->]|[_ ->]];
        [left | right; left]; reflexivity.
    + intros y [<-|[<-|Hy]].
      * specialize (Hmin (Z.min x z) (or_introl eq_refl)). lia.
      * specialize (Hmin (Z.min x z) (or_introl eq_refl)). lia.
      * apply Hmin. right. exact Hy.
Qed.

(** When the first comprehension goes through, the end times handed to
    [max] are those of the child sections that end at or before [t]. *)
Lemma end_times_of_sections_ending_before (cs : list Child) (t : Z) :
  forall l,
    sections_ending_before cs t = inr l ->
    exists ts,
      end_times l = inr ts
      /\ forall e,
           In e ts <->
           exists s, In (ChildSection s) cs
                     /\ ParseLogs.end_time s = Some e /\ e <= t.
Proof.
  induction cs as [|[s|m] cs IH]; intros l Hl; cbn [sections_ending_before] in Hl.
  - injection Hl as <-. exists []. split; [reflexivity|].
    intros e. split; [intros [] | intros (s & [] & _)].
  - destruct (ParseLogs.end_time s) as [e0|] eqn:Es; [|discriminate].
    destruct (sections_ending_before cs t) as [x|l0]; [discriminate|].
    destruct (IH l0 eq_refl) as (ts & Hts & Hin).
    injection Hl as <-.
    destruct (e0 <=? t) eqn:Ele.
    + apply Z.leb_le in Ele. exists (e0 :: ts). split.
      * cbn [end_times]. rewrite Es, Hts. reflexivity.
      * intros e. cbn [In]. rewrite Hin. split.
        -- intros [<-|(s' & Hs' & He')].
           ++ exists s. auto.
           ++ exists s'. auto.
        -- intros (s' & [Heq|Hs'] & He' & Hle).
           ++ injection Heq as <-. left. congruence.
           ++ right. exists s'. auto.
    + apply Z.leb_gt in Ele. exists ts. split; [exact Hts|].
      intros e. rewrite Hin. split.
      * intros (s' & Hs' & He'). exists s'. cbn [In]. auto.
      * intros (s' & [Heq|Hs'] & He' & Hle).
        -- injection Heq as <-. rewrite Es in He'. injection He' as <-. lia.
        -- exists s'. auto.
  - destruct (IH l Hl) as (ts & Hts & Hin). exists ts. split; [exact Hts|].
    intros e. rewrite Hin. split.
    + intros (s' & Hs' & He'). exists s'. cbn [In]. auto.
    + intros (s' & [Heq|Hs'] & He'); [discriminate|]. exists s'. auto.
Qed.

Lemma sections_ending_before_closed (cs : list Child) (t : Z) :
  (forall s, In (ChildSection s) cs -> ParseLogs.end_time s <> None) ->
  exists l, sections_ending_before cs t = inr l.
Proof.
  induction cs as [|[s|m] cs IH]; intros Hclosed;
    cbn [sections_ending_before].
  - eauto.
  - destruct (ParseLogs.end_time s) as [e|] eqn:Es.
    + destruct IH as [l ->]; [intros s' Hs'; apply Hclosed; right; exact Hs'|].
      eauto.
    + exfalso. apply (Hclosed s); [left; reflexivity | exact Es].
  - apply IH. intros s' Hs'. apply Hclosed. right. exact Hs'.
Qed.

Lemma sections_starting_after_spec (cs : list Child) (t : Z) :
  forall x,
    In x (map ParseLogs.start_time (sections_starting_after cs t)) <->
    exists s, In (ChildSection s) cs /\ ParseLogs.start_time s = x /\ t <= x.
Proof.
  induction cs as [|[s|m] cs IH]; intros x; cbn [sections_starting_after].
  - split; [intros [] | intros (s & [] & _)].
  - destruct (ParseLogs.start_time s >=? t) eqn:E.
    + apply Z.geb_le in E. cbn [map In]. rewrite IH. split.
      * intros [<-|(s' & Hs' & He')]; [exists s | exists s']; auto.
      * intros (s' & [Heq|Hs'] & He'); [injection Heq as <-; left; tauto|].
        right. exists s'. auto.
    + assert (ParseLogs.start_time s < t) by
        (destruct (Z.geb_spec (ParseLogs.start_time s) t); [discriminate|lia]).
      rewrite IH. split.
      * intros (s' & Hs' & He'). exists s'. cbn [In]. auto.
      * intros (s' & [Heq|Hs'] & He' & Hle); [injection Heq as <-; lia|].
        exists s'. auto.
  - rewrite IH. split.
    + intros (s' & Hs' & He'). exists s'. cbn [In]. auto.
    + intros (s' & [Heq|Hs'] & He'); [discriminate|]. exists s'. auto.
Qed.

Lemma left_bound_time_spec (parent : LogSection) (first : LogMessage)
    (t : Z) :
  left_bound_time parent first = inr t ->
  latest_end_before parent (timestamp first) t
  \/ (no_section_ends_before parent (timestamp first)
      /\ t = ParseLogs.start_time parent).
Proof.
  unfold left_bound_time.
  destruct (sections_ending_before _ _) as [x|l] eqn:Hl; [discriminate|].
  destruct (end_times_of_sections_ending_before _ _ _ Hl) as (ts & -> & Hin).
  intros Ht. injection Ht as <-. destruct ts as [|e ts]; cbn [max_default].
  - right. split; [|reflexivity].
    intros s e Hs He Hle. apply (proj2 (Hin e)). exists s. auto.
  - left. destruct (fold_left_max_spec ts e) as [Hmem Hmax]. split.
    + apply Hin in Hmem. destruct Hmem as (s & Hs & He & Hle).
      exists s. auto.
    + intros s e' Hs He' Hle. apply Hmax. apply Hin. exists s. auto.
Qed.

Lemma right_bound_time_spec (parent : LogSection) (last_event : LogMessage)
    (t : Z) :
  right_bound_time parent last_event = Some t ->
  earliest_start_after parent (timestamp last_event) t
  \/ (no_section_starts_after parent (timestamp last_event)
      /\ ParseLogs.end_time parent = Some t).
Proof.
  unfold right_bound_time.
  pose proof (sections_starting_after_spec (ParseLogs.children parent)
                (timestamp last_event)) as Hin.
  destruct (map ParseLogs.start_time _) as [|x xs]; cbn [min_default].
  - intros Ht. right. split; [|exact Ht].
    intros s Hs Hle. apply (proj2 (Hin (ParseLogs.start_time s))).
    exists s. auto.
  - intros Ht. injection Ht as <-. left.
    destruct (fold_left_min_spec xs x) as [Hmem Hmin]. split.
    + apply Hin in Hmem. destruct Hmem as (s & Hs & He & Hle).
      exists s. auto.
    + intros s Hs Hle. apply Hmin. apply Hin. exists s. auto.
Qed.

Lemma left_bound_time_closed (parent : LogSection) (first : LogMessage) :
  children_closed parent -> exists t, left_bound_time parent first = inr t.
Proof.
  intros Hclosed. unfold left_bound_time.
  destruct (sections_ending_before_closed (ParseLogs.children parent)
              (timestamp first) Hclosed) as [l Hl].
  rewrite Hl.
  destruct (end_times_of_sections_ending_before _ _ _ Hl) as (ts & -> & _).
  eauto.
Qed.

Lemma right_bound_time_closed (parent : LogSection) (last_event : LogMessage) :
  ParseLogs.end_time parent <> None ->
  exists t, right_bound_time parent last_event = Some t.
Proof.
  intros Hend. unfold right_bound_time.
  destruct (map ParseLogs.start_time _); cbn [min_default]; [|eauto].
  destruct (ParseLogs.end_time parent); [eauto | contradiction].
Qed.

(** The layout of a run that is drawn: its bounds and its fields. *)
Lemma annotation_layout_inr (self : TimelineVisualizer)
    (run : list LogMessage) (parent : LogSection) (depth : nat)
    (cy w h rw : Q) (flag : bool) (lay : AnnotationLayout) :
  annotation_layout self run parent depth cy w h rw flag = inr lay ->
  exists first rest l r,
    run = first :: rest
    /\ left_bound_time parent first = inr l
    /\ right_bound_time parent (last run first) = Some r
    /\ available_area_x_start lay = time_to_x self l
    /\ available_area_x_end lay = time_to_x self r
    /\ available_width lay = (time_to_x self r - time_to_x self l)%Q
    /\ margin lay = (0.01 * available_width lay)%Q
    /\ annotation_rect_width lay
       = ((available_width lay
           - margin lay * (inject_Z (Z.of_nat (List.length run)) - 1))
          / inject_Z (Z.of_nat (List.length run)))%Q
    /\ parent_section_build_side_y lay
       = (cy + (h / 2) * build_direction_factor self)%Q
    /\ annotation_rect_center_y lay
       = if flag then
           (parent_section_build_side_y lay
            + (get_section_rect_height_depth_based rw depth * 1.5)
              * build_direction_factor self)%Q
         else
           (parent_section_build_side_y lay
            + (get_section_rect_height_aspect_ratio_based w * 1.5)
              * build_direction_factor self)%Q.
Proof.
  unfold annotation_layout. destruct run as [|first rest]; [discriminate|].
  destruct (left_bound_time parent first) as [x|l] eqn:Hl; [discriminate|].
  destruct (right_bound_time parent (last (first :: rest) first))
    as [r|] eqn:Hr; [|discriminate].
  intros H. injection H as <-. exists first, rest, l, r.
  cbn [available_area_x_start available_area_x_end available_width margin
       annotation_rect_width parent_section_build_side_y
       annotation_rect_center_y].
  repeat split; try reflexivity; assumption.
Qed.

Lemma annotation_layout_closed (self : TimelineVisualizer)
    (run : list LogMessage) (parent : LogSection) (depth : nat)
    (cy w h rw : Q) (flag : bool) :
  run <> [] -> children_closed parent -> ParseLogs.end_time parent <> None ->
  exists lay, annotation_layout self run parent depth cy w h rw flag = inr lay.
Proof.
  intros Hrun Hclosed Hend. unfold annotation_layout.
  destruct run as [|first rest]; [contradiction|].
  destruct (left_bound_time_closed parent first Hclosed) as [l ->].
  destruct (right_bound_time_closed parent (last (first :: rest) first) Hend)
    as [r ->].
  eauto.
Qed.

(** The loop emits, for each event, a box, its label and a connector; the
    boxes all have the width and the vertical centre of the layout. *)
Lemma draw_annotations_emits (self : TimelineVisualizer)
    (lay : AnnotationLayout) (depth : nat) (w h rw : Q) (flag : bool)
    (run : list LogMessage) :
  forall i st,
  exists cmds,
    for_each_enumerate i run (draw_annotation self lay depth w h rw flag) st
    = (inr tt, {| commands := commands st ++ cmds;
                  used_text_areas := used_text_areas st;
                  calls := calls st |})
    /\ List.length cmds = (3 * List.length run)%nat
    /\ Forall (fun c => forall bw, box_width c = Some bw ->
                         bw = annotation_rect_width lay) cmds
    /\ Forall (fun c => forall y, box_center_y c = Some y ->
                         y = annotation_rect_center_y lay) cmds.
Proof.
  induction run as [|event run IH]; intros i st.
  - exists []. cbn [for_each_enumerate]. unfold ret.
    rewrite app_nil_r. destruct st. repeat split; constructor.
  - cbn [for_each_enumerate]. unfold bind at 1.
    unfold draw_annotation at 1, bind, commands_append.
    cbn [commands used_text_areas calls].
    match goal with
    | |- context [for_each_enumerate (S i) run _ ?st1] =>
        destruct (IH (S i) st1) as (cmds & Hrun & Hlen & Hw & Hy)
    end.
    rewrite Hrun. cbn [commands used_text_areas calls].
    eexists (_ :: _ :: _ :: cmds). split; [|split; [|split]].
    + rewrite <- !app_assoc. reflexivity.
    + cbn [List.length]. rewrite Hlen. lia.
    + repeat constructor; try exact Hw;
        intros bw Hbw; cbn [box_width] in Hbw; congruence.
    + repeat constructor; try exact Hy;
        intros y Hy'; cbn [box_center_y] in Hy'; congruence.
Qed.

Lemma draw_event_sequence_annotations_emits (self : TimelineVisualizer)
    (run : list LogMessage) (parent : LogSection) (depth : nat)
    (cy w h rw : Q) (flag : bool) (lay : AnnotationLayout) (st : State) :
  annotation_layout self run parent depth cy w h rw flag = inr lay ->
  exists cmds,
    draw_event_sequence_annotations self run parent depth cy w h rw flag st
    = (inr tt,
       {| commands := commands st ++ cmds;
          used_text_areas := used_text_areas st;
          calls := calls st ++ [call_draw_event_sequence_annotations flag] |})
    /\ List.length cmds = (3 * List.length run)%nat
    /\ Forall (fun c => forall bw, box_width c = Some bw ->
                         bw = annotation_rect_width lay) cmds
    /\ Forall (fun c => forall y, box_center_y c = Some y ->
                         y = annotation_rect_center_y lay) cmds.
Proof.
  intros Hlay. unfold draw_event_sequence_annotations, bind, enter, lift.
  rewrite Hlay. unfold ret.
  match goal with
  | |- context [for_each_enumerate 0 run _ ?st1] =>
      destruct (draw_annotations_emits self lay depth w h rw flag run 0 st1)
        as (cmds & Hrun & Hrest)
  end.
  rewrite Hrun. exists cmds. split; [reflexivity | exact Hrest].
Qed.

Lemma demo_root_children_closed : children_closed demo_root.
Proof.
  intros s [H|[H|[]]]; [injection H as <-|]; discriminate.
Qed.

(** C3: the available horizontal span of a drawn run starts at [time_to_x]
    of the latest [end_time] among the sibling sections that end at or
    before the first event of the run, or of the parent's [start_time] when
    there is none, and ends at [time_to_x] of the earliest [start_time]
    among the sibling sections that start at or after the last event, or of
    the parent's [end_time] when there is none.  A non-empty run under a
    closed parent whose child sections are closed is drawn. *)
Theorem annotation_available_span (self : TimelineVisualizer)
    (run : list LogMessage) (parent : LogSection) (depth : nat)
    (cy w h rw : Q) (flag : bool) :
  (forall lay,
     annotation_layout self run parent depth cy w h rw flag = inr lay ->
     exists first l r,
       hd_error run = Some first
       /\ available_area_x_start lay = time_to_x self l
       /\ available_area_x_end lay = time_to_x self r
       /\ (latest_end_before parent (timestamp first) l
           \/ (no_section_ends_before parent (timestamp first)
               /\ l = ParseLogs.start_time parent))
       /\ (earliest_start_after parent (timestamp (last run first)) r
           \/ (no_section_starts_after parent (timestamp (last run first))
               /\ ParseLogs.end_time parent = Some r)))
  /\ (run <> [] -> children_closed parent ->
      ParseLogs.end_time parent <> None ->
      exists lay,
        annotation_layout self run parent depth cy w h rw flag = inr lay).
Proof.
  split; [|apply annotation_layout_closed].
  intros lay Hlay.
  destruct (annotation_layout_inr _ _ _ _ _ _ _ _ _ _ Hlay)
    as (first & rest & l & r & -> & Hl & Hr & Hstart & Hend & _).
  exists first, l, r. split; [reflexivity|].
  split; [exact Hstart|]. split; [exact Hend|]. split.
  - apply left_bound_time_spec. exact Hl.
  - apply right_bound_time_spec. exact Hr.
Qed.

Lemma annotation_available_span_witness :
  exists lay first l r,
    annotation_layout demo [demo_event] demo_root 0 0.155%Q 1 0.01%Q 1 false
    = inr lay
    /\ hd_error [demo_event] = Some first
    /\ available_area_x_start lay = time_to_x demo l
    /\ available_area_x_end lay = time_to_x demo r
    /\ (latest_end_before demo_root (timestamp first) l
        \/ (no_section_ends_before demo_root (timestamp first)
            /\ l = ParseLogs.start_time demo_root))
    /\ (earliest_start_after demo_root
          (timestamp (last [demo_event] first)) r
        \/ (no_section_starts_after demo_root
              (timestamp (last [demo_event] first))
            /\ ParseLogs.end_time demo_root = Some r)).
Proof.
  pose proof (annotation_available_span demo [demo_event] demo_root 0
                0.155%Q 1 0.01%Q 1 false) as [Hspan Hdrawn].
  destruct Hdrawn as [lay Hlay];
    [discriminate | exact demo_root_children_closed | discriminate |].
  destruct (Hspan lay Hlay) as (first & l & r & Hrest).
  exists lay, first, l, r. split; [exact Hlay | exact Hrest].
Defined.

Lemma draw_annotations_boxes (self : TimelineVisualizer)
    (lay : AnnotationLayout) (depth : nat) (w h rw : Q) (flag : bool)
    (run : list LogMessage) :
  forall i st,
  exists cmds,
    commands
      (snd (for_each_enumerate i run
              (draw_annotation self lay depth w h rw flag) st))
    = commands st ++ cmds
    /\ forall k event,
         nth_error run k = Some event ->
         nth_error cmds (3 * k) = Some (annotation_box lay (i + k)).
Proof.
  induction run as [|event run IH]; intros i st.
  - exists []. cbn [for_each_enumerate]. unfold ret. cbn [snd].
    rewrite app_nil_r. split; [reflexivity|].
    intros [|k] ev H; discriminate H.
  - cbn [for_each_enumerate]. unfold bind at 1.
    unfold draw_annotation at 1, bind, commands_append.
    cbn [commands used_text_areas calls].
    match goal with
    | |- context [for_each_enumerate (S i) run _ ?st1] =>
        destruct (IH (S i) st1) as (cmds & Hrun & Hnth)
    end.
    rewrite Hrun. cbn [commands].
    eexists (_ :: _ :: _ :: cmds). split.
    + rewrite <- !app_assoc. reflexivity.
    + intros [|k] ev Hev.
      * rewrite Nat.add_0_r. reflexivity.
      * replace (3 * S k)%nat with (S (S (S (3 * k)))) by lia.
        cbn [nth_error] in Hev |- *.
        rewrite (Hnth k ev Hev). rewrite Nat.add_succ_comm. reflexivity.
Qed.

Lemma run_length_ge_one (first : LogMessage) (rest : list LogMessage) :
  (1 <= inject_Z (Z.of_nat (List.length (first :: rest))))%Q.
Proof.
  unfold Qle. cbn [Qnum Qden inject_Z List.length]. lia.
Qed.

(** In binary64 arithmetic the boxes and margins of a run of up to 100
    events fill the available width up to [2^-50] of it. *)
Lemma packed_width_binary64_near (W : Q) (n : nat) :
  (2 ^ (-900) <= W)%Q -> (1 <= n <= 100)%nat ->
  (W - 2 ^ (-50) * W <= packed_width_binary64 W n <= W + 2 ^ (-50) * W)%Q.
Proof.
  intros HW Hn.
  unfold packed_width_binary64, packing_binary64, fadd, fmul, fsub, fdiv.
  set (N := inject_Z (Z.of_nat n)).
  assert (HN : (1 <= N <= 100)%Q).
  { unfold N. split.
    - change 1%Q with (inject_Z 1). rewrite <- Zle_Qle. lia.
    - change 100%Q with (inject_Z 100). rewrite <- Zle_Qle. lia. }
  assert (HWpos : (0 < W)%Q).
  { eapply Qlt_le_trans; [apply (pow2_pos (-900)) | exact HW]. }
  set (eta := ((1 # 1267650600228229401496703205376) * W)%Q).
  assert (Heta : (2 ^ (-1075) <= eta)%Q).
  { unfold eta. apply Qle_trans with (2 ^ (-175) * W)%Q.
    - replace (-1075) with (-175 + -900) by reflexivity.
      rewrite pow2_plus. apply Qmult_le_l; [apply pow2_pos | exact HW].
    - apply Qmult_le_compat_r; [|lra].
      apply Qle_bool_iff. vm_compute. reflexivity. }
  assert (Heta' : (eta == (1 # 1267650600228229401496703205376) * W)%Q)
    by reflexivity.
  change (2 ^ (-50))%Q with (1 # 1125899906842624)%Q.
  set (c := round_binary64 0.01).
  assert (Hc : (0.01 <= c <= 0.0100000001)%Q).
  { split; apply Qle_bool_iff; vm_compute; reflexivity. }
  clearbody c.
  (* margin *)
  set (A := (c * W)%Q).
  assert (HA : (0.01 * W <= A <= 0.0100000001 * W)%Q) by (unfold A; nra).
  pose proof (round_binary64_near_rel A eta ltac:(lra) Heta) as Hm.
  set (m := round_binary64 A) in *. clearbody m. clearbody A.
  (* margins of the run *)
  set (X := (m * (N - 1))%Q).
  assert (Hm' : (0 <= m <= 0.0101 * W)%Q) by (rewrite Heta' in Hm; lra).
  assert (HX : (0 <= X <= 99 * m)%Q) by (unfold X; nra).
  pose proof (round_binary64_near_rel X eta ltac:(lra) Heta) as Ht.
  set (t := round_binary64 X) in *. clearbody t.
  assert (HX' : ((N - 1) * m == X)%Q) by (unfold X; ring).
  pose proof (round_binary64_near_rel ((N - 1) * m) eta
                ltac:(rewrite HX'; lra) Heta) as Hs.
  set (s := round_binary64 ((N - 1) * m)) in *. clearbody s.
  rewrite HX' in Hs. clearbody X.
  (* remaining space *)
  set (D := (W - t)%Q).
  assert (HD : (D == W - t)%Q) by reflexivity.
  assert (HDpos : (0 <= D)%Q) by (rewrite Heta' in *; lra).
  pose proof (round_binary64_near_rel D eta HDpos Heta) as Hr.
  set (r := round_binary64 D) in *. clearbody r. clearbody D.
  (* box *)
  assert (Hrpos : (0 <= r)%Q) by (rewrite Heta' in *; lra).
  set (Qd := (r / N)%Q).
  assert (HQd : (N * Qd == r)%Q) by (unfold Qd; field; lra).
  assert (HQdpos : (0 <= Qd)%Q).
  { unfold Qd. apply Qle_shift_div_l; [lra|]. lra. }
  pose proof (round_binary64_near_rel Qd eta HQdpos Heta) as Hb.
  set (b := round_binary64 Qd) in *. clearbody b. clearbody Qd.
  (* the boxes of the run *)
  set (Y := (N * b)%Q).
  assert (HY : (r - (1 # 9007199254740992) * r - 100 * eta <= Y
                <= r + (1 # 9007199254740992) * r + 100 * eta)%Q).
  { unfold Y. rewrite Heta' in *. nra. }
  assert (HYpos : (0 <= Y)%Q) by (rewrite Heta' in *; lra).
  pose proof (round_binary64_near_rel Y eta HYpos Heta) as Hp.
  set (p := round_binary64 Y) in *. clearbody p. clearbody Y.
  (* the sum *)
  assert (HZpos : (0 <= p + s)%Q) by (rewrite Heta' in *; lra).
  pose proof (round_binary64_near_rel (p + s) eta HZpos Heta) as Htot.
  set (total := round_binary64 (p + s)) in *. clearbody total.
  rewrite Heta' in *. clear Heta Heta' HQd. clearbody eta.
  lra.
Qed.

(** C4, as stated, fails in the arithmetic of the code: for the run of ten
    events of the packed trace the available width is 1, and in binary64
    arithmetic ten boxes and nine margins add up to
    [0.9999999999999999], the float next below 1, not to 1. *)
Lemma annotation_boxes_fill_width_inexact :
  (exists lay,
     annotation_layout packed packed_run packed_root 0 0.155%Q 1 0.01%Q 1
       false = inr lay
     /\ List.length packed_run = 10%nat
     /\ (available_width lay == 1)%Q)
  /\ PrimFloat.sub (time_to_x_float 0 2000000 0.5)
       (time_to_x_float 0 0 0.5) = 1%float
  /\ packed_width_float 1 10 = 0x1.fffffffffffffp-1%float
  /\ PrimFloat.ltb (packed_width_float 1 10) 1 = true
  /\ option_map Qred (Q_of_float (packed_width_float 1 10))
     = Some (Qred (packed_width_binary64 1 10))
  /\ (packed_width_binary64 1 10 < 1)%Q.
Proof.
  split.
  { eexists. split; [reflexivity|]. split; reflexivity. }
  repeat split; vm_compute; reflexivity.
Qed.

(** C4, amended: for a run of [n] events whose available width [W] is the
    distance between the images of its two bound times, the margin is
    [0.01 * W] and every box has the width [(W - margin*(n-1)) / n]: each
    event of the run gets a box, and the boxes share that one width,
    whatever the events are.  [n] boxes and [n-1] margins fill the width up
    to rounding, not exactly: in binary64 arithmetic, for a run of up to
    100 events and a width between [2^-900] and [2^1000], their sum is
    within [2^-50 * W] of [W]. *)
Theorem annotation_boxes_fill_width (self : TimelineVisualizer)
    (run : list LogMessage) (parent : LogSection) (depth : nat)
    (cy w h rw : Q) (flag : bool) (lay : AnnotationLayout) :
  annotation_layout self run parent depth cy w h rw flag = inr lay ->
  let n := inject_Z (Z.of_nat (List.length run)) in
  let W := available_width lay in
  let box_w := annotation_rect_width lay in
  (exists first l r,
     hd_error run = Some first
     /\ left_bound_time parent first = inr l
     /\ right_bound_time parent (last run first) = Some r
     /\ W = (time_to_x self r - time_to_x self l)%Q)
  /\ margin lay = (0.01 * W)%Q
  /\ box_w = ((W - margin lay * (n - 1)) / n)%Q
  /\ (forall st,
      exists cmds st',
        draw_event_sequence_annotations self run parent depth cy w h rw flag
          st = (inr tt, st')
        /\ commands st' = commands st ++ cmds
        /\ List.length cmds = (3 * List.length run)%nat
        /\ (forall k event,
              nth_error run k = Some event ->
              nth_error cmds (3 * k) = Some (annotation_box lay k)
              /\ box_width (annotation_box lay k) = Some box_w)
        /\ Forall (fun c => forall bw, box_width c = Some bw -> bw = box_w)
             cmds)
  /\ (forall Wf : Q,
        (2 ^ (-900) <= Wf)%Q -> (Wf <= 2 ^ 1000)%Q ->
        (List.length run <= 100)%nat ->
        (Wf - 2 ^ (-50) * Wf <= packed_width_binary64 Wf (List.length run)
         <= Wf + 2 ^ (-50) * Wf)%Q).
Proof.
  intros Hlay n W box_w.
  destruct (annotation_layout_inr _ _ _ _ _ _ _ _ _ _ Hlay)
    as (first & rest & l & r & Hrun & Hl & Hr & _ & _ & HW & Hm & Hw & _).
  split.
  { exists first, l, r. rewrite Hrun at 1. split; [reflexivity|].
    split; [exact Hl|]. split; [exact Hr | exact HW]. }
  split; [exact Hm|]. split; [exact Hw|]. split.
  - intros st.
    destruct (draw_event_sequence_annotations_emits self run parent depth cy
                w h rw flag lay st Hlay) as (cmds & Hdraw & Hlen & Hbw & _).
    eexists cmds, _. split; [exact Hdraw|].
    split; [reflexivity|]. split; [exact Hlen|]. split; [|exact Hbw].
    intros k event Hk. split; [|reflexivity].
    pose proof Hdraw as Hsnd.
    unfold draw_event_sequence_annotations, bind, enter, lift in Hsnd.
    rewrite Hlay in Hsnd. unfold ret in Hsnd.
    match type of Hsnd with
    | context [for_each_enumerate 0 run _ ?st1] =>
        destruct (draw_annotations_boxes self lay depth w h rw flag run 0
                    st1) as (cmds' & Hcmds & Hnth)
    end.
    destruct (for_each_enumerate 0 run _ _) as [[e|[]] st1'];
      [discriminate Hsnd|].
    injection Hsnd as Hst.
    cbn [snd commands] in Hcmds. rewrite Hst in Hcmds. cbn [commands] in Hcmds.
    apply app_inv_head in Hcmds. subst cmds'.
    exact (Hnth k event Hk).
  - intros Wf Hlo _ Hlen. apply packed_width_binary64_near; [exact Hlo|].
    split; [|exact Hlen]. rewrite Hrun. cbn [List.length]. lia.
Qed.

Lemma annotation_boxes_fill_width_witness :
  exists lay,
    annotation_layout packed packed_run packed_root 0 0.155%Q 1 0.01%Q 1
      false = inr lay
    /\ List.length packed_run = 10%nat
    /\ margin lay = (0.01 * available_width lay)%Q
    /\ annotation_rect_width lay
       = ((available_width lay - margin lay * (10 - 1)) / 10)%Q
    /\ (1 - 2 ^ (-50) * 1 <= packed_width_binary64 1 10
        <= 1 + 2 ^ (-50) * 1)%Q.
Proof.
  eexists. split; [reflexivity|]. split; [reflexivity|].
  match goal with
  | |- context [margin ?lay] =>
      pose proof (annotation_boxes_fill_width packed packed_run packed_root
                    0 0.155%Q 1 0.01%Q 1 false lay eq_refl)
        as (_ & Hm & Hw & _ & Hnear)
  end.
  split; [exact Hm|]. split; [exact Hw|].
  apply (Hnear 1%Q); [discriminate | discriminate | cbn; lia].
Defined.

(** C5, as stated, fails in the aspect-ratio-based mode, the mode of a
    pass started by [generate]: for the run of the worked trace the row sits
    at 0.535, a quarter of the parent's width times 1.5 above the parent's
    edge at 0.16, where the depth-based formula gives 0.2725. *)
Lemma annotation_row_offset_aspect_mode :
  exists lay,
    annotation_layout demo [demo_event] demo_root 0 0.155%Q 1 0.01%Q 1 false
    = inr lay
    /\ (parent_section_build_side_y lay == 0.16)%Q
    /\ (annotation_rect_center_y lay == 0.535)%Q
    /\ (parent_section_build_side_y lay
        + (0.15 * get_depth_scale 0 * (1 / 2) * 1.5)
          * build_direction_factor demo == 0.2725)%Q
    /\ ~ (annotation_rect_center_y lay
          == parent_section_build_side_y lay
             + (0.15 * get_depth_scale 0 * (1 / 2) * 1.5)
               * build_direction_factor demo)%Q.
Proof.
  eexists. split; [reflexivity|].
  repeat split; try reflexivity. discriminate.
Qed.

(** C5, amended: the vertical centre of the annotation row is offset from
    the build-side edge of the parent section, in the build direction, by
    1.5 times the section height of the sizing mode in force: the
    depth-based formula [0.15 * depth_scale(depth) * root_width/2] in the
    depth-based mode, a quarter of the parent rectangle's width in the
    aspect-ratio-based mode.  Every box of the run is centred there. *)
Theorem annotation_row_offset (self : TimelineVisualizer)
    (run : list LogMessage) (parent : LogSection) (depth : nat)
    (cy w h rw : Q) (flag : bool) (lay : AnnotationLayout) :
  annotation_layout self run parent depth cy w h rw flag = inr lay ->
  parent_section_build_side_y lay
  = (cy + (h / 2) * build_direction_factor self)%Q
  /\ annotation_rect_center_y lay
     = (parent_section_build_side_y lay
        + (row_height depth w rw flag * 1.5) * build_direction_factor self)%Q
  /\ forall st,
     exists cmds st',
       draw_event_sequence_annotations self run parent depth cy w h rw flag st
       = (inr tt, st')
       /\ commands st' = commands st ++ cmds
       /\ Forall (fun c => forall y, box_center_y c = Some y ->
                            y = annotation_rect_center_y lay) cmds.
Proof.
  intros Hlay.
  destruct (annotation_layout_inr _ _ _ _ _ _ _ _ _ _ Hlay)
    as (first & rest & l & r & _ & _ & _ & _ & _ & _ & _ & _ & Hside & Hrow).
  split; [exact Hside|]. split.
  - rewrite Hrow. destruct flag; reflexivity.
  - intros st.
    destruct (draw_event_sequence_annotations_emits self run parent depth cy
                w h rw flag lay st Hlay) as (cmds & Hdraw & _ & _ & Hy).
    eexists cmds, _. split; [exact Hdraw|].
    split; [reflexivity | exact Hy].
Qed.

Lemma annotation_row_offset_witness :
  exists lay,
    annotation_layout demo [demo_event] demo_root 0 0.155%Q 1 0.01%Q 1 false
    = inr lay
    /\ parent_section_build_side_y lay
       = (0.155 + (0.01 / 2) * build_direction_factor demo)%Q
    /\ annotation_rect_center_y lay
       = (parent_section_build_side_y lay
          + (row_height 0 1 1 false * 1.5) * build_direction_factor demo)%Q.
Proof.
  eexists. split; [reflexivity|].
  match goal with
  | |- context [annotation_rect_center_y ?lay] =>
      pose proof (annotation_row_offset demo [demo_event] demo_root 0
                    0.155%Q 1 0.01%Q 1 false lay eq_refl)
        as (Hside & Hrow & _)
  end.
  split; [exact Hside | exact Hrow].
Defined.

(** ** Tree walker *)

(** Induction on a section with the property at hand for its child
    sections. *)
Lemma LogSection_children_ind (P : LogSection -> Prop) :
  (forall n s e cs,
     Forall (fun c => match c with
                      | ChildSection s' => P s'
                      | ChildMessage _ => True
                      end) cs ->
     P (MkLogSection n s e cs)) ->
  forall s, P s.
Proof.
  intros H. fix IH 1. intros [n st e cs]. apply H.
  induction cs as [|c cs IHcs]; constructor.
  - destruct c as [s'|m]; [apply IH | exact I].
  - exact IHcs.
Qed.

Section CallHistory.

Variable flag : bool.

Lemma calls_flagged_ret {A} (a : A) : calls_flagged flag (ret a).
Proof. intros st. exists []. rewrite app_nil_r. split; [reflexivity|constructor]. Qed.

Lemma calls_flagged_raise {A} (e : exn) : calls_flagged flag (@raise A e).
Proof. intros st. exists []. rewrite app_nil_r. split; [reflexivity|constructor]. Qed.

Lemma calls_flagged_lift {A} (r : exn + A) : calls_flagged flag (lift r).
Proof. destruct r; [apply calls_flagged_raise | apply calls_flagged_ret]. Qed.

Lemma calls_flagged_bind {A B} (m : M A) (f : A -> M B) :
  calls_flagged flag m -> (forall a, calls_flagged flag (f a)) ->
  calls_flagged flag (bind m f).
Proof.
  intros Hm Hf st. unfold bind.
  destruct (Hm st) as (tr1 & H1 & F1).
  destruct (m st) as [[e|a] st1]; cbn [snd] in *.
  - exists tr1. auto.
  - destruct (Hf a st1) as (tr2 & H2 & F2).
    exists (tr1 ++ tr2). rewrite H2, H1, app_assoc.
    split; [reflexivity | apply Forall_app; auto].
Qed.

Lemma calls_flagged_enter (c : Call) :
  call_flag c = flag -> calls_flagged flag (enter c).
Proof.
  intros Hc st. exists [c]. split; [reflexivity|].
  constructor; [exact Hc | constructor].
Qed.

Lemma calls_flagged_commands_append (c : Command) :
  calls_flagged flag (commands_append c).
Proof. intros st. exists []. rewrite app_nil_r. split; [reflexivity|constructor]. Qed.

Lemma calls_flagged_used_text_areas_append (a : Q * Q * Q * Q) :
  calls_flagged flag (used_text_areas_append a).
Proof. intros st. exists []. rewrite app_nil_r. split; [reflexivity|constructor]. Qed.

Lemma calls_flagged_for_each {A} (xs : list A) (body : A -> M unit) :
  (forall x, calls_flagged flag (body x)) ->
  calls_flagged flag (for_each xs body).
Proof.
  intros Hbody. induction xs as [|x xs IH]; cbn [for_each].
  - apply calls_flagged_ret.
  - apply calls_flagged_bind; [apply Hbody | intros _; exact IH].
Qed.

Lemma calls_flagged_for_each_enumerate {A} (xs : list A)
    (body : nat -> A -> M unit) :
  (forall i x, calls_flagged flag (body i x)) ->
  forall i, calls_flagged flag (for_each_enumerate i xs body).
Proof.
  intros Hbody. induction xs as [|x xs IH]; intros i;
    cbn [for_each_enumerate].
  - apply calls_flagged_ret.
  - apply calls_flagged_bind; [apply Hbody | intros _; apply IH].
Qed.

End CallHistory.

Create HintDb calls.

#[local] Hint Resolve calls_flagged_ret calls_flagged_raise calls_flagged_lift
  calls_flagged_commands_append calls_flagged_used_text_areas_append
  : calls.

Ltac calls_step :=
  first
    [ apply calls_flagged_bind; [|intros ?]
    | apply calls_flagged_enter; reflexivity
    | apply calls_flagged_for_each; intros ?
    | apply calls_flagged_for_each_enumerate; intros ? ?
    | solve [auto with calls] ].

Lemma draw_section_rect_calls (self : TimelineVisualizer)
    (section : LogSection) (depth index : nat) (bottom_y rw : Q)
    (flag : bool) :
  calls_flagged flag
    (draw_section_rect self section depth index bottom_y rw flag).
Proof. unfold draw_section_rect. repeat calls_step. Qed.

Lemma draw_event_sequence_annotations_calls (self : TimelineVisualizer)
    (run : list LogMessage) (parent : LogSection) (depth : nat)
    (cy w h rw : Q) (flag : bool) :
  calls_flagged flag
    (draw_event_sequence_annotations self run parent depth cy w h rw flag).
Proof.
  unfold draw_event_sequence_annotations. repeat calls_step.
Qed.

Lemma draw_event_calls (self : TimelineVisualizer) (child : LogMessage)
    (depth : nat) (bottom_y w h rw : Q) (flag mode : bool) :
  calls_flagged flag (draw_event self child depth bottom_y w h rw mode).
Proof. unfold draw_event. repeat calls_step. Qed.

(** Every call made below [process_section] carries the flag it was
    entered with, and the first of them is the entry itself. *)
Lemma process_section_calls (self : TimelineVisualizer) (flag : bool)
    (section : LogSection) :
  forall depth bottom_y index rw,
    calls_flagged flag
      (process_section self section depth bottom_y index rw flag)
    /\ forall st,
       exists tr,
         calls (snd (process_section self section depth bottom_y index rw
                       flag st))
         = calls st ++ call_process_section flag :: tr.
Proof.
  induction section as [n s e cs IH] using LogSection_children_ind.
  intros depth bottom_y index rw. cbn [process_section].
  match goal with
  | |- calls_flagged _ (bind _ ?k) /\ _ =>
      assert (Hrest : calls_flagged flag (k tt))
  end.
  { cbv beta. destruct e as [section_end|]; [|apply calls_flagged_ret].
    apply calls_flagged_bind; [apply draw_section_rect_calls|].
    intros [[w h] cy].
    apply calls_flagged_bind.
    { apply calls_flagged_for_each. intros run.
      apply draw_event_sequence_annotations_calls. }
    intros _.
    apply calls_flagged_bind; [|intros _; apply calls_flagged_ret].
    match goal with
    | |- calls_flagged _ (?loop cs 0%nat) =>
        enough (Hloop : forall i, calls_flagged flag (loop cs i))
          by apply Hloop
    end.
    induction IH as [|[child|child] cs Hchild _ IHcs]; intros i.
    - apply calls_flagged_ret.
    - apply calls_flagged_bind; [apply Hchild | intros _; apply IHcs].
    - apply calls_flagged_bind;
        [apply draw_event_calls | intros _; apply IHcs]. }
  split.
  - apply calls_flagged_bind; [apply calls_flagged_enter; reflexivity|].
    intros []. exact Hrest.
  - intros st. unfold bind at 1, enter at 1.
    match goal with
    | |- context [snd (_ ?st1)] => destruct (Hrest st1) as (tr & Htr & _)
    end.
    exists tr. cbv beta in Htr. rewrite Htr. cbn [calls].
    rewrite <- app_assoc. reflexivity.
Qed.

Lemma calls_kept_ret {A} (a : A) : calls_kept (ret a).
Proof. intros st. exists a, st. split; reflexivity. Qed.

Lemma calls_kept_bind {A B} (m : M A) (f : A -> M B) :
  calls_kept m -> (forall a, calls_kept (f a)) -> calls_kept (bind m f).
Proof.
  intros Hm Hf st. unfold bind.
  destruct (Hm st) as (a & st1 & -> & H1).
  destruct (Hf a st1) as (b & st2 & -> & H2).
  exists b, st2. split; [reflexivity | congruence].
Qed.

Lemma calls_kept_commands_append (c : Command) :
  calls_kept (commands_append c).
Proof. intros st. eexists _, _. split; reflexivity. Qed.

Lemma calls_kept_used_text_areas_append (a : Q * Q * Q * Q) :
  calls_kept (used_text_areas_append a).
Proof. intros st. eexists _, _. split; reflexivity. Qed.

Lemma calls_kept_for_each {A} (xs : list A) (body : A -> M unit) :
  (forall x, calls_kept (body x)) -> calls_kept (for_each xs body).
Proof.
  intros Hbody. induction xs as [|x xs IH]; cbn [for_each].
  - apply calls_kept_ret.
  - apply calls_kept_bind; [apply Hbody | intros _; exact IH].
Qed.

Lemma draw_tick_calls_kept (self : TimelineVisualizer) (i : nat) :
  calls_kept (draw_tick self i).
Proof.
  unfold draw_tick.
  apply calls_kept_bind; [apply calls_kept_commands_append|].
  intros _.
  apply calls_kept_bind; [apply calls_kept_used_text_areas_append|].
  intros _.
  apply calls_kept_commands_append.
Qed.

Lemma clear_lists_calls_kept : calls_kept clear_lists.
Proof. intros st. eexists _, _. split; reflexivity. Qed.

(** The axis is drawn without entering any of the flagged methods. *)
Lemma timeline_calls_kept (self : TimelineVisualizer) :
  calls_kept
    (if draw_timeline self then draw_base_timeline self ;;; draw_ticks self
     else ret tt).
Proof.
  destruct (draw_timeline self); [|apply calls_kept_ret].
  apply calls_kept_bind; [apply calls_kept_commands_append|].
  intros _. unfold draw_ticks. apply calls_kept_for_each.
  apply draw_tick_calls_kept.
Qed.

(** C10: in a pass started through [generate] the sizing-mode flag is the
    same all along the traversal.  Every call of [process_section],
    [draw_section_rect] and [draw_event_sequence_annotations] made below a
    call of [process_section] receives the flag of that call; [generate]
    enters [process_section] with [False], the default of its signature,
    so every flagged call of the pass receives [False], although the
    signatures of the two helpers default to [True]. *)
Theorem sizing_mode_uniform (self : TimelineVisualizer) :
  (forall flag section depth bottom_y index rw st,
     exists tr,
       calls (snd (process_section self section depth bottom_y index rw
                     flag st))
       = calls st ++ call_process_section flag :: tr
       /\ Forall (fun c => call_flag c = flag) tr)
  /\ (forall st,
        exists tr,
          calls (snd (generate self st))
          = calls st ++ call_process_section false :: tr
          /\ Forall (fun c => call_flag c = false) tr)
  /\ process_section_default = false
  /\ draw_section_rect_default = true
  /\ draw_event_sequence_annotations_default = true.
Proof.
  assert (Hwalk : forall flag section depth bottom_y index rw st,
             exists tr,
               calls (snd (process_section self section depth bottom_y
                             index rw flag st))
               = calls st ++ call_process_section flag :: tr
               /\ Forall (fun c => call_flag c = flag) tr).
  { intros flag section depth bottom_y index rw st.
    destruct (process_section_calls self flag section depth bottom_y index
                rw) as [Hall Hhead].
    destruct (Hall st) as (tr1 & H1 & F1).
    destruct (Hhead st) as (tr2 & H2).
    exists tr2. split; [exact H2|].
    rewrite H1 in H2. apply app_inv_head in H2. subst tr1.
    inversion F1; assumption. }
  split; [exact Hwalk|]. split; [|repeat split].
  intros st. unfold generate. unfold bind at 1.
  destruct (clear_lists_calls_kept st) as (a & st1 & -> & Hcleared).
  unfold bind at 1.
  destruct (timeline_calls_kept self st1) as (b & st2 & -> & Haxis).
  unfold bind at 1.
  match goal with
  | |- context [process_section ?v ?sec ?d ?y ?i ?rw ?b st2] =>
      destruct (Hwalk b sec d y i rw st2) as (tr & Htr & Ftr);
      destruct (process_section v sec d y i rw b st2) as [[e|r] st3]
  end; cbn [snd] in *; exists tr; rewrite Htr, Haxis, Hcleared; auto.
Qed.

(** A section left open is skipped by the walker: nothing is emitted and
    the base it was given is returned. *)
Lemma process_section_open (self : TimelineVisualizer) (section : LogSection)
    (depth : nat) (bottom_y : Q) (index : nat) (rw : Q) (flag : bool)
    (st : State) :
  ParseLogs.end_time section = None ->
  process_section self section depth bottom_y index rw flag st
  = (inr (Some bottom_y),
     {| commands := commands st;
        used_text_areas := used_text_areas st;
        calls := calls st ++ [call_process_section flag] |}).
Proof.
  destruct section as [n s e cs]. cbn [ParseLogs.end_time].
  intros ->. reflexivity.
Qed.

(** C6: the walker skips a section whose [end_time] is absent, but the pass
    fails all the same when the parent of that section also holds a
    point-event: the annotation renderer compares the absent [end_time]
    with the timestamp of the event and raises [TypeError], after the
    rectangle and the label of the parent and before any child is
    visited. *)
Theorem open_child_beside_event_raises :
  init_default root_with_open_child = inr visualizer_with_open_child
  /\ ParseLogs.end_time open_child = None
  /\ fst (generate visualizer_with_open_child initial_state) = inl TypeError
  /\ fst (process_section visualizer_with_open_child root_with_open_child
            0 0.15%Q 0 (-1)%Q false initial_state) = inl TypeError
  /\ List.length
       (commands
          (snd (process_section visualizer_with_open_child
                  root_with_open_child 0 0.15%Q 0 (-1)%Q false
                  initial_state))) = 2%nat
  /\ left_bound_time root_with_open_child
       {| timestamp := 1000000; message := "e" |} = inl TypeError.
Proof.
  repeat split; vm_compute; reflexivity.
Qed.

(** * Further properties *)

(** ** Geometry helpers *)

Lemma depth_plus_one_pos (depth : nat) :
  (0 < inject_Z (Z.of_nat depth) + 1)%Q.
Proof.
  unfold Qlt. cbn [Qnum Qden Qplus inject_Z]. lia.
Qed.

Lemma depth_plus_one_lt (d1 d2 : nat) :
  (d1 < d2)%nat ->
  (inject_Z (Z.of_nat d1) + 1 < inject_Z (Z.of_nat d2) + 1)%Q.
Proof.
  intros H. unfold Qlt. cbn [Qnum Qden Qplus inject_Z]. lia.
Qed.

Lemma get_depth_scale_pos (depth : nat) : (0 < get_depth_scale depth)%Q.
Proof.
  unfold get_depth_scale.
  apply Qlt_shift_div_l; [apply depth_plus_one_pos|].
  rewrite Qmult_0_l. reflexivity.
Qed.

Lemma get_depth_scale_le_one (depth : nat) :
  (get_depth_scale depth <= 1)%Q.
Proof.
  unfold get_depth_scale.
  apply Qle_shift_div_r; [apply depth_plus_one_pos|]. rewrite Qmult_1_l.
  unfold Qle. cbn [Qnum Qden Qplus inject_Z]. lia.
Qed.

Lemma get_depth_scale_decreasing (d1 d2 : nat) :
  (d1 < d2)%nat -> (get_depth_scale d2 < get_depth_scale d1)%Q.
Proof.
  intros Hlt. unfold get_depth_scale, Qdiv. rewrite !Qmult_1_l.
  apply (proj1 (Qinv_lt_contravar _ _ (depth_plus_one_pos d1)
                  (depth_plus_one_pos d2))).
  apply depth_plus_one_lt. exact Hlt.
Qed.

(** X1: [get_depth_scale] takes its values in (0, 1], is 1 at depth 0 and
    strictly decreases as the depth grows. *)
Theorem get_depth_scale_bounds :
  (forall depth, (0 < get_depth_scale depth)%Q
                 /\ (get_depth_scale depth <= 1)%Q)
  /\ (get_depth_scale 0 == 1)%Q
  /\ (forall d1 d2, (d1 < d2)%nat ->
                    (get_depth_scale d2 < get_depth_scale d1)%Q).
Proof.
  split; [|split].
  - intros depth. split;
      [apply get_depth_scale_pos | apply get_depth_scale_le_one].
  - reflexivity.
  - exact get_depth_scale_decreasing.
Qed.

(** X2: the aspect-ratio-based event width never falls below the floor
    [1e-6]; from a section width of a thousandth on it is the section width
    divided by 1000, and below that it is the floor itself. *)
Theorem get_event_width_aspect_ratio_based_floor (section_width : Q) :
  (0.000001 <= get_event_width_aspect_ratio_based section_width)%Q
  /\ ((0.001 <= section_width)%Q ->
      (get_event_width_aspect_ratio_based section_width
       == section_width / 1000)%Q)
  /\ ((section_width < 0.001)%Q ->
      (get_event_width_aspect_ratio_based section_width == 0.000001)%Q).
Proof.
  assert (Hd : (section_width / 1000 == section_width * 0.001)%Q) by field.
  unfold get_event_width_aspect_ratio_based, py_max.
  destruct (Qle_bool 0.000001 (section_width / 1000)) eqn:E.
  - apply Qle_bool_iff in E. split; [exact E|]. split.
    + intros _. reflexivity.
    + intros Hlt. rewrite Hd in E. lra.
  - apply Qle_bool_false in E. split; [lra|]. split.
    + intros Hge. rewrite Hd in E. lra.
    + intros _. reflexivity.
Qed.

Lemma get_event_width_aspect_ratio_based_floor_witness :
  (0.001 <= 2)%Q
  /\ (get_event_width_aspect_ratio_based 2 == 2 / 1000)%Q.
Proof.
  split; [discriminate|].
  apply (proj1 (proj2 (get_event_width_aspect_ratio_based_floor 2))).
  discriminate.
Defined.

(** X3: for a positive root width the depth-based section height and the
    depth-based event width are positive at every depth and strictly
    decrease as the depth grows. *)
Theorem depth_based_sizes_positive_decreasing (root_section_width : Q) :
  (0 < root_section_width)%Q ->
  (forall depth,
     (0 < get_section_rect_height_depth_based root_section_width depth)%Q
     /\ (0 < get_event_width_depth_based root_section_width depth)%Q)
  /\ (forall d1 d2, (d1 < d2)%nat ->
        (get_section_rect_height_depth_based root_section_width d2
         < get_section_rect_height_depth_based root_section_width d1)%Q
        /\ (get_event_width_depth_based root_section_width d2
            < get_event_width_depth_based root_section_width d1)%Q).
Proof.
  intros Hw.
  unfold get_section_rect_height_depth_based, get_event_width_depth_based.
  assert (Hhalf : (root_section_width / 2 == root_section_width * 0.5)%Q)
    by field.
  split.
  - intros depth. rewrite !Hhalf.
    pose proof (get_depth_scale_pos depth) as H1.
    pose proof (get_depth_scale_pos (depth + 1)) as H2.
    split; nra.
  - intros d1 d2 Hlt. rewrite !Hhalf.
    pose proof (get_depth_scale_decreasing d1 d2 Hlt) as H1.
    pose proof (get_depth_scale_decreasing (d1 + 1) (d2 + 1) ltac:(lia))
      as H2.
    split; nra.
Qed.

Lemma depth_based_sizes_positive_decreasing_witness :
  (0 < 1)%Q
  /\ (0 < get_section_rect_height_depth_based 1 3)%Q
  /\ (get_section_rect_height_depth_based 1 3
      < get_section_rect_height_depth_based 1 2)%Q.
Proof.
  split; [reflexivity|].
  pose proof (depth_based_sizes_positive_decreasing 1 eq_refl) as [Hp Hd].
  split; [apply Hp | apply Hd; lia].
Defined.

(** ** Time mapper *)

(** X4: with a scale that is not negative [time_to_x] keeps the order of
    timestamps, so that a section that ends after it starts has a width
    that is not negative; with a scale that is not positive it reverses
    the order; with the scale 0 every timestamp lies at 0. *)
Theorem time_to_x_monotone (self : TimelineVisualizer) :
  ((0 <= ndc_units_per_second self)%Q ->
   forall a b : Z, a <= b ->
     (time_to_x self a <= time_to_x self b)%Q
     /\ (0 <= time_to_x self b - time_to_x self a)%Q)
  /\ ((ndc_units_per_second self <= 0)%Q ->
      forall a b : Z, a <= b -> (time_to_x self b <= time_to_x self a)%Q)
  /\ ((ndc_units_per_second self == 0)%Q ->
      forall a : Z, (time_to_x self a == 0)%Q).
Proof.
  assert (Hsec : forall a b : Z, a <= b ->
            (total_seconds (a - start_time self)
             <= total_seconds (b - start_time self))%Q).
  { intros a b Hab. unfold total_seconds, Qdiv.
    apply Qmult_le_compat_r; [|discriminate].
    rewrite <- Zle_Qle. lia. }
  split; [|split].
  - intros Hscale a b Hab.
    assert (Hle : (time_to_x self a <= time_to_x self b)%Q).
    { unfold time_to_x. apply Qmult_le_compat_r; [|exact Hscale].
      apply Hsec. exact Hab. }
    split; [exact Hle | lra].
  - intros Hscale a b Hab. unfold time_to_x.
    specialize (Hsec a b Hab).
    set (x := total_seconds (a - start_time self)) in *.
    set (y := total_seconds (b - start_time self)) in *.
    nra.
  - intros Hscale a. unfold time_to_x. rewrite Hscale. ring.
Qed.

Lemma time_to_x_monotone_witness :
  (0 <= ndc_units_per_second demo)%Q
  /\ 500000 <= 1000000
  /\ (time_to_x demo 500000 <= time_to_x demo 1000000)%Q
  /\ (0 <= time_to_x demo 1000000 - time_to_x demo 500000)%Q.
Proof.
  split; [discriminate|]. split; [lia|].
  apply (proj1 (time_to_x_monotone demo)); [discriminate | lia].
Defined.

(** ** Colours *)

Lemma py_mod_range (x m : Q) :
  (0 < m)%Q -> (0 <= py_mod x m)%Q /\ (py_mod x m < m)%Q.
Proof.
  intros Hm. unfold py_mod.
  pose proof (Qfloor_le (x / m)) as Hlo.
  pose proof (Qlt_floor (x / m)) as Hhi.
  rewrite inject_Z_plus in Hhi.
  assert (Hx : (x == x / m * m)%Q) by (field; lra).
  set (q := (x / m)%Q) in *. set (k := inject_Z (Qfloor q)) in *.
  change (inject_Z 1) with 1%Q in Hhi.
  split; rewrite Hx; nra.
Qed.

Lemma int_of_nonneg (q : Q) :
  (0 <= q)%Q -> Z.quot (Qnum q) (Zpos (Qden q)) = Qfloor q.
Proof.
  intros Hq. destruct q as [n d]. cbn [Qnum Qden Qfloor].
  apply Z.quot_div_nonneg; [|lia].
  unfold Qle in Hq. cbn in Hq. lia.
Qed.

(** [hsv_to_rgb] stays between 0 and the value it is given. *)
Lemma hsv_to_rgb_range (h s v : Q) :
  (0 <= h)%Q -> (0 <= s)%Q -> (s <= 1)%Q -> (0 <= v)%Q ->
  let c := hsv_to_rgb h s v in
  ((0 <= red c)%Q /\ (red c <= v)%Q)
  /\ ((0 <= green c)%Q /\ (green c <= v)%Q)
  /\ ((0 <= blue c)%Q /\ (blue c <= v)%Q).
Proof.
  intros Hh Hs0 Hs1 Hv. unfold hsv_to_rgb.
  destruct (Qeq_bool s 0); [cbn; repeat split; lra|].
  assert (H6 : (0 <= h * 6)%Q) by lra.
  rewrite (int_of_nonneg _ H6).
  pose proof (Qfloor_le (h * 6)) as Hlo.
  pose proof (Qlt_floor (h * 6)) as Hhi.
  rewrite inject_Z_plus in Hhi. change (inject_Z 1) with 1%Q in Hhi.
  set (f := (h * 6 - inject_Z (Qfloor (h * 6)))%Q).
  assert (Hf0 : (0 <= f)%Q) by (unfold f; lra).
  assert (Hf1 : (f <= 1)%Q) by (unfold f; lra).
  assert (Hsf0 : (0 <= s * f)%Q) by nra.
  assert (Hsf1 : (s * f <= 1)%Q) by nra.
  assert (Hsg0 : (0 <= s * (1 - f))%Q) by nra.
  assert (Hsg1 : (s * (1 - f) <= 1)%Q) by nra.
  set (sf := (s * f)%Q) in *. set (sg := (s * (1 - f))%Q) in *.
  cbv zeta.
  repeat match goal with
         | |- context [if ?b then _ else _] => destruct b
         end;
    cbn [red green blue fst snd]; repeat split; nra.
Qed.

(** X5: every colour made by [generate_color] has its three components
    between 0 and 0.9, so it is a colour of the unit cube. *)
Theorem generate_color_range (depth index : nat) :
  let c := generate_color depth index in
  ((0 <= red c)%Q /\ (red c <= 0.9)%Q)
  /\ ((0 <= green c)%Q /\ (green c <= 0.9)%Q)
  /\ ((0 <= blue c)%Q /\ (blue c <= 0.9)%Q).
Proof.
  unfold generate_color.
  set (d := inject_Z (Z.of_nat depth)). set (i := inject_Z (Z.of_nat index)).
  destruct (py_mod_range (d * 0.3 + i * 0.1) 1 eq_refl) as [Hh0 _].
  destruct (py_mod_range (d * 0.1) 0.6 eq_refl) as [Hv0 Hv1].
  pose proof (hsv_to_rgb_range (py_mod (d * 0.3 + i * 0.1) 1) 0.7
                (0.9 - py_mod (d * 0.1) 0.6) Hh0) as Hc.
  cbv zeta in Hc |- *.
  destruct Hc as ((Hr0 & Hr1) & (Hg0 & Hg1) & (Hb0 & Hb1));
    [discriminate | discriminate | lra |].
  repeat split; lra.
Qed.

(** ** The command list as an append-only log *)

Lemma state_eta (st : State) :
  {| commands := commands st;
     used_text_areas := used_text_areas st;
     calls := calls st |} = st.
Proof. destruct st. reflexivity. Qed.

Lemma appends_ret {A} (a : A) : appends (ret a).
Proof.
  exists (inr a), [], [], []. intros st. unfold ret.
  rewrite !app_nil_r, state_eta. reflexivity.
Qed.

Lemma appends_raise {A} (e : exn) : appends (@raise A e).
Proof.
  exists (inl e), [], [], []. intros st. unfold raise.
  rewrite !app_nil_r, state_eta. reflexivity.
Qed.

Lemma appends_lift {A} (r : exn + A) : appends (lift r).
Proof. destruct r; [apply appends_raise | apply appends_ret]. Qed.

Lemma appends_commands_append (c : Command) : appends (commands_append c).
Proof.
  exists (inr tt), [c], [], []. intros st. unfold commands_append.
  rewrite !app_nil_r. reflexivity.
Qed.

Lemma appends_used_text_areas_append (a : Q * Q * Q * Q) :
  appends (used_text_areas_append a).
Proof.
  exists (inr tt), [], [a], []. intros st. unfold used_text_areas_append.
  rewrite !app_nil_r. reflexivity.
Qed.

Lemma appends_enter (c : Call) : appends (enter c).
Proof.
  exists (inr tt), [], [], [c]. intros st. unfold enter.
  rewrite !app_nil_r. reflexivity.
Qed.

Lemma appends_bind {A B} (m : M A) (f : A -> M B) :
  appends m -> (forall a, appends (f a)) -> appends (bind m f).
Proof.
  intros (r & out & areas & tr & Hm) Hf. destruct r as [e|a].
  - exists (inl e), out, areas, tr. intros st. unfold bind.
    rewrite Hm. reflexivity.
  - destruct (Hf a) as (r' & out' & areas' & tr' & Hfa).
    exists r', (out ++ out'), (areas ++ areas'), (tr ++ tr').
    intros st. unfold bind. rewrite Hm, Hfa.
    cbn [commands used_text_areas calls]. rewrite !app_assoc. reflexivity.
Qed.

Lemma appends_for_each {A} (xs : list A) (body : A -> M unit) :
  (forall x, appends (body x)) -> appends (for_each xs body).
Proof.
  intros Hbody. induction xs as [|x xs IH]; cbn [for_each].
  - apply appends_ret.
  - apply appends_bind; [apply Hbody | intros _; exact IH].
Qed.

Lemma appends_for_each_enumerate {A} (xs : list A)
    (body : nat -> A -> M unit) :
  (forall i x, appends (body i x)) ->
  forall i, appends (for_each_enumerate i xs body).
Proof.
  intros Hbody. induction xs as [|x xs IH]; intros i;
    cbn [for_each_enumerate].
  - apply appends_ret.
  - apply appends_bind; [apply Hbody | intros _; apply IH].
Qed.

Lemma appends_children_loop (walk : LogSection -> nat -> M (option Q))
    (mark : LogMessage -> M unit) (cs : list Child) :
  Forall (fun c => match c with
                   | ChildSection s => forall i, appends (walk s i)
                   | ChildMessage _ => True
                   end) cs ->
  (forall m, appends (mark m)) ->
  forall i, appends (children_loop walk mark cs i).
Proof.
  intros Hwalk Hmark.
  induction Hwalk as [|[s|m] cs Hs _ IH]; intros i; cbn [children_loop].
  - apply appends_ret.
  - apply appends_bind; [apply Hs | intros _; apply IH].
  - apply appends_bind; [apply Hmark | intros _; apply IH].
Qed.

Lemma appends_draw_section_rect (self : TimelineVisualizer)
    (section : LogSection) (depth index : nat) (bottom_y rw : Q)
    (flag : bool) :
  appends (draw_section_rect self section depth index bottom_y rw flag).
Proof.
  unfold draw_section_rect.
  apply appends_bind; [apply appends_enter | intros _].
  apply appends_bind; [apply appends_lift | intros e].
  apply appends_bind; [apply appends_commands_append | intros _].
  apply appends_bind; [apply appends_commands_append | intros _].
  apply appends_ret.
Qed.

Lemma appends_draw_annotation (self : TimelineVisualizer)
    (lay : AnnotationLayout) (depth : nat) (w h rw : Q) (flag : bool)
    (i : nat) (event : LogMessage) :
  appends (draw_annotation self lay depth w h rw flag i event).
Proof.
  unfold draw_annotation.
  apply appends_bind; [apply appends_commands_append | intros _].
  apply appends_bind; [apply appends_commands_append | intros _].
  apply appends_commands_append.
Qed.

Lemma appends_draw_event_sequence_annotations (self : TimelineVisualizer)
    (run : list LogMessage) (parent : LogSection) (depth : nat)
    (cy w h rw : Q) (flag : bool) :
  appends
    (draw_event_sequence_annotations self run parent depth cy w h rw flag).
Proof.
  unfold draw_event_sequence_annotations.
  apply appends_bind; [apply appends_enter | intros _].
  apply appends_bind; [apply appends_lift | intros lay].
  apply appends_for_each_enumerate. intros i event.
  apply appends_draw_annotation.
Qed.

Lemma appends_draw_event (self : TimelineVisualizer) (child : LogMessage)
    (depth : nat) (bottom_y w h rw : Q) (flag : bool) :
  appends (draw_event self child depth bottom_y w h rw flag).
Proof. unfold draw_event. apply appends_commands_append. Qed.

(** [process_section], on a section that has ended, written with
    [children_loop]. *)
Lemma process_section_closed_eq (self : TimelineVisualizer) (n : string)
    (s e : Z) (cs : list Child) (depth : nat) (bottom_y : Q) (index : nat)
    (rw : Q) (flag : bool) :
  let section := MkLogSection n s (Some e) cs in
  let rw' :=
    if Qeq_bool rw (-1) then (time_to_x self e - time_to_x self s)%Q
    else rw in
  process_section self section depth bottom_y index rw flag
  = (enter (call_process_section flag) ;;;
     rect <- draw_section_rect self section depth index bottom_y rw' flag ;;
     let '(w, h, cy) := rect in
     for_each (group_event_sequences section)
       (fun run =>
          draw_event_sequence_annotations self run section depth
            cy w h rw' flag) ;;;
     children_loop
       (fun child i =>
          process_section self child (depth + 1)
            (bottom_y + h * build_direction_factor self)%Q i rw' flag)
       (fun child => draw_event self child depth bottom_y w h rw' flag)
       cs 0 ;;;
     ret None).
Proof. reflexivity. Qed.

Lemma appends_process_section (self : TimelineVisualizer) (flag : bool)
    (section : LogSection) :
  forall depth bottom_y index rw,
    appends (process_section self section depth bottom_y index rw flag).
Proof.
  induction section as [n s e cs IH] using LogSection_children_ind.
  intros depth bottom_y index rw. destruct e as [e|].
  - rewrite process_section_closed_eq. cbv zeta.
    apply appends_bind; [apply appends_enter | intros _].
    apply appends_bind; [apply appends_draw_section_rect|].
    intros [[w h] cy].
    apply appends_bind.
    { apply appends_for_each. intros run.
      apply appends_draw_event_sequence_annotations. }
    intros _.
    apply appends_bind; [|intros _; apply appends_ret].
    apply appends_children_loop.
    + eapply Forall_impl; [|exact IH]. intros [c|m] Hc; [|exact I].
      intros i. apply Hc.
    + intros m. apply appends_draw_event.
  - cbn [process_section].
    apply appends_bind; [apply appends_enter | intros _].
    apply appends_ret.
Qed.

Lemma appends_timeline (self : TimelineVisualizer) :
  appends
    (if draw_timeline self then draw_base_timeline self ;;; draw_ticks self
     else ret tt).
Proof.
  destruct (draw_timeline self); [|apply appends_ret].
  apply appends_bind; [apply appends_commands_append | intros _].
  unfold draw_ticks. apply appends_for_each. intros i. unfold draw_tick.
  apply appends_bind; [apply appends_commands_append | intros _].
  apply appends_bind; [apply appends_used_text_areas_append | intros _].
  apply appends_commands_append.
Qed.

(** What a pass leaves does not depend on the lists it started from. *)
Lemma generate_shape (self : TimelineVisualizer) :
  exists res out areas tr,
    (forall st,
       generate self st
       = (res, {| commands := out;
                  used_text_areas := areas;
                  calls := calls st ++ tr |}))
    /\ forall cmds, res = inr cmds -> cmds = out.
Proof.
  destruct (appends_timeline self) as (ra & oa & aa & ta & Ha).
  destruct (appends_process_section self process_section_default
              (root_section self) 0
              (base_timeline_position_y self
               + (timeline_tick_height self / 2 + 0.1)
                 * build_direction_factor self)%Q 0 (-1)%Q)
    as (rp & op & ap & tp & Hp).
  destruct ra as [e|[]].
  - exists (inl e), oa, aa, ta. split; [|discriminate].
    intros st. unfold generate. unfold bind at 1. unfold clear_lists at 1.
    unfold bind at 1. rewrite Ha. reflexivity.
  - destruct rp as [e|r].
    + exists (inl e), (oa ++ op), (aa ++ ap), (ta ++ tp).
      split; [|discriminate].
      intros st. unfold generate. unfold bind at 1. unfold clear_lists at 1.
      unfold bind at 1. rewrite Ha. unfold bind at 1. rewrite Hp.
      cbn [commands used_text_areas calls app]. rewrite app_assoc.
      reflexivity.
    + exists (inr (oa ++ op)), (oa ++ op), (aa ++ ap), (ta ++ tp).
      split; [|intros cmds H; injection H as <-; reflexivity].
      intros st. unfold generate. unfold bind at 1. unfold clear_lists at 1.
      unfold bind at 1. rewrite Ha. unfold bind at 1. rewrite Hp.
      cbn [commands used_text_areas calls app]. rewrite app_assoc.
      reflexivity.
Qed.

(** X6: [generate] starts from empty lists, so a pass gives the same
    result and leaves the same commands and text areas whatever an earlier
    pass left behind; when it returns, the list it returns is the content
    of [self.commands]. *)
Theorem generate_repeatable (self : TimelineVisualizer) (st st' : State) :
  fst (generate self st) = fst (generate self st')
  /\ commands (snd (generate self st)) = commands (snd (generate self st'))
  /\ used_text_areas (snd (generate self st))
     = used_text_areas (snd (generate self st'))
  /\ (forall cmds, fst (generate self st) = inr cmds ->
                   cmds = commands (snd (generate self st)))
  /\ fst (generate self (snd (generate self st))) = fst (generate self st).
Proof.
  destruct (generate_shape self) as (res & out & areas & tr & Hgen & Hres).
  rewrite !Hgen. cbn [fst snd commands used_text_areas].
  repeat split; try reflexivity. exact Hres.
Qed.

(** ** When the walk goes through *)

(** The runs hold as many events as the section has point-event
    children. *)
Lemma group_event_sequences_length (section : LogSection) :
  List.length (List.concat (group_event_sequences section))
  = List.length (events_of (ParseLogs.children section)).
Proof.
  rewrite group_event_sequences_refines. unfold maximal_runs.
  rewrite concat_filter_nonempty, concat_split_at_sections.
  symmetry. apply Permutation_length, events_of_perm, sorted_perm.
Qed.

Lemma children_closed_forallb (parent : LogSection) :
  forallb child_closed (ParseLogs.children parent) = true ->
  children_closed parent.
Proof.
  intros H s Hs. rewrite forallb_forall in H. specialize (H _ Hs).
  cbn [child_closed] in H. destruct (ParseLogs.end_time s); congruence.
Qed.

Lemma sections_ending_before_open (cs : list Child) (t : Z) :
  forallb child_closed cs = false ->
  sections_ending_before cs t = inl TypeError.
Proof.
  induction cs as [|[s|m] cs IH]; cbn [forallb child_closed]; intros H.
  - discriminate.
  - cbn [sections_ending_before].
    destruct (ParseLogs.end_time s); [|reflexivity].
    cbn [andb] in H. rewrite (IH H). reflexivity.
  - cbn [sections_ending_before]. apply IH. exact H.
Qed.

(** A run beside a section left open cannot be laid out. *)
Lemma annotation_layout_open (self : TimelineVisualizer)
    (run : list LogMessage) (parent : LogSection) (depth : nat)
    (cy w h rw : Q) (flag : bool) :
  run <> [] ->
  forallb child_closed (ParseLogs.children parent) = false ->
  annotation_layout self run parent depth cy w h rw flag = inl TypeError.
Proof.
  intros Hrun Hopen. destruct run as [|first rest]; [contradiction|].
  unfold annotation_layout, left_bound_time.
  rewrite (sections_ending_before_open _ _ Hopen). reflexivity.
Qed.

Lemma draw_event_sequence_annotations_raises (self : TimelineVisualizer)
    (run : list LogMessage) (parent : LogSection) (depth : nat)
    (cy w h rw : Q) (flag : bool) (e : exn) (st : State) :
  annotation_layout self run parent depth cy w h rw flag = inl e ->
  draw_event_sequence_annotations self run parent depth cy w h rw flag st
  = (inl e,
     {| commands := commands st;
        used_text_areas := used_text_areas st;
        calls := calls st ++ [call_draw_event_sequence_annotations flag] |}).
Proof.
  intros Hlay. unfold draw_event_sequence_annotations, bind, enter, lift.
  rewrite Hlay. reflexivity.
Qed.

(** The runs of a section whose child sections are closed are all drawn,
    with three commands for each event. *)
Lemma for_each_runs_drawn (self : TimelineVisualizer) (parent : LogSection)
    (depth : nat) (cy w h rw : Q) (flag : bool)
    (runs : list (list LogMessage)) :
  children_closed parent -> ParseLogs.end_time parent <> None ->
  Forall (fun run => run <> []) runs ->
  forall st,
  exists st',
    for_each runs
      (fun run =>
         draw_event_sequence_annotations self run parent depth cy w h rw
           flag) st
    = (inr tt, st')
    /\ List.length (commands st')
       = (List.length (commands st)
          + 3 * List.length (List.concat runs))%nat.
Proof.
  intros Hclosed Hend Hruns.
  induction Hruns as [|run runs Hrun _ IH]; intros st; cbn [for_each].
  - exists st. split; [reflexivity|]. cbn. lia.
  - destruct (annotation_layout_closed self run parent depth cy w h rw flag
                Hrun Hclosed Hend) as [lay Hlay].
    destruct (draw_event_sequence_annotations_emits self run parent depth
                cy w h rw flag lay st Hlay)
      as (cmds & Hdraw & Hlen & _).
    unfold bind. rewrite Hdraw.
    match goal with
    | |- context [for_each runs _ ?st1] =>
        destruct (IH st1) as (st' & Hrest & Hcount)
    end.
    exists st'. split; [exact Hrest|].
    rewrite Hcount. cbn [commands List.concat].
    rewrite !length_app, Hlen. lia.
Qed.

(** Beside a section left open the first run already raises. *)
Lemma for_each_runs_raise (self : TimelineVisualizer) (parent : LogSection)
    (depth : nat) (cy w h rw : Q) (flag : bool)
    (runs : list (list LogMessage)) :
  forallb child_closed (ParseLogs.children parent) = false ->
  runs <> [] -> Forall (fun run => run <> []) runs ->
  forall st,
  exists st',
    for_each runs
      (fun run =>
         draw_event_sequence_annotations self run parent depth cy w h rw
           flag) st
    = (inl TypeError, st')
    /\ commands st' = commands st.
Proof.
  intros Hopen Hne Hruns st. destruct runs as [|run runs]; [contradiction|].
  inversion Hruns as [|? ? Hrun _]; subst.
  cbn [for_each]. unfold bind.
  rewrite (draw_event_sequence_annotations_raises self run parent depth cy w
             h rw flag TypeError st
             (annotation_layout_open self run parent depth cy w h rw flag
                Hrun Hopen)).
  eexists. split; reflexivity.
Qed.

Lemma runs_nil_of_no_events (section : LogSection) :
  events_of (ParseLogs.children section) = [] ->
  group_event_sequences section = [].
Proof.
  intros Hnone.
  pose proof (group_event_sequences_length section) as Hlen.
  rewrite Hnone in Hlen. cbn [List.length] in Hlen.
  pose proof (filter_nonempty_all
                (split_at_sections
                   (sorted anchor (ParseLogs.children section)))) as Hne.
  fold (maximal_runs (sorted anchor (ParseLogs.children section))) in Hne.
  rewrite <- group_event_sequences_refines in Hne.
  destruct (group_event_sequences section) as [|run runs]; [reflexivity|].
  inversion Hne as [|? ? Hrun _]; subst.
  destruct run; [contradiction | discriminate Hlen].
Qed.

Lemma runs_cons_of_events (section : LogSection) :
  events_of (ParseLogs.children section) <> [] ->
  group_event_sequences section <> [].
Proof.
  intros Hsome Hnil.
  pose proof (group_event_sequences_length section) as Hlen.
  rewrite Hnil in Hlen. cbn [List.concat List.length] in Hlen.
  destruct (events_of (ParseLogs.children section));
    [contradiction | discriminate Hlen].
Qed.

Lemma runs_nonempty (section : LogSection) :
  Forall (fun run => run <> []) (group_event_sequences section).
Proof.
  rewrite group_event_sequences_refines. apply filter_nonempty_all.
Qed.

(** The annotations of a rendered section: drawn, three commands for each
    point-event, unless a point-event stands beside a section left open. *)
Lemma runs_outcome (self : TimelineVisualizer) (section : LogSection)
    (depth : nat) (cy w h rw : Q) (flag : bool) (st : State) :
  ParseLogs.end_time section <> None ->
  let cs := ParseLogs.children section in
  let draw_runs :=
    for_each (group_event_sequences section)
      (fun run =>
         draw_event_sequence_annotations self run section depth cy w h rw
           flag) in
  (negb (nonempty (events_of cs)) || forallb child_closed cs = true ->
   exists st',
     draw_runs st = (inr tt, st')
     /\ List.length (commands st')
        = (List.length (commands st) + 3 * List.length (events_of cs))%nat)
  /\ (negb (nonempty (events_of cs)) || forallb child_closed cs = false ->
      exists st', draw_runs st = (inl TypeError, st')).
Proof.
  intros Hend cs draw_runs. unfold draw_runs.
  destruct (forallb child_closed cs) eqn:Hclosed.
  - rewrite orb_true_r. split; [intros _ | discriminate].
    destruct (for_each_runs_drawn self section depth cy w h rw flag
                (group_event_sequences section)
                (children_closed_forallb section Hclosed) Hend
                (runs_nonempty section) st) as (st' & Hrun & Hlen).
    exists st'. split; [exact Hrun|].
    rewrite Hlen, group_event_sequences_length. reflexivity.
  - rewrite orb_false_r.
    destruct (events_of cs) as [|m ms] eqn:Hev; cbn [nonempty negb].
    + split; [intros _ | discriminate].
      rewrite (runs_nil_of_no_events section Hev). cbn [for_each].
      exists st. split; [reflexivity|]. cbn. lia.
    + split; [discriminate | intros _].
      destruct (for_each_runs_raise self section depth cy w h rw flag
                  (group_event_sequences section) Hclosed) with (st := st)
        as (st' & Hrun & _).
      * apply runs_cons_of_events. fold cs. rewrite Hev. discriminate.
      * apply runs_nonempty.
      * exists st'. exact Hrun.
Qed.

Lemma children_loop_outcome (walk : LogSection -> nat -> M (option Q))
    (mark : LogMessage -> M unit) (cs : list Child) :
  (forall m st,
     exists st',
       mark m st = (inr tt, st')
       /\ List.length (commands st') = S (List.length (commands st))) ->
  Forall (fun c => match c with
                   | ChildSection s => forall i, walk_outcome s (walk s i)
                   | ChildMessage _ => True
                   end) cs ->
  forall i st,
    (forallb (fun c => match c with
                       | ChildSection s => walk_safe s
                       | ChildMessage _ => true
                       end) cs = true ->
     exists st',
       children_loop walk mark cs i st = (inr tt, st')
       /\ List.length (commands st')
          = (List.length (commands st) + List.length (events_of cs)
             + list_sum (map (fun c => match c with
                                       | ChildSection s => command_count s
                                       | ChildMessage _ => 0%nat
                                       end) cs))%nat)
    /\ (forallb (fun c => match c with
                          | ChildSection s => walk_safe s
                          | ChildMessage _ => true
                          end) cs = false ->
        exists st', children_loop walk mark cs i st = (inl TypeError, st')).
Proof.
  intros Hmark Hwalk.
  induction Hwalk as [|[s|m] cs Hs _ IH]; intros i st;
    cbn [children_loop forallb events_of map List.length];
    unfold list_sum in *; cbn [fold_right].
  - split; [intros _ | discriminate].
    exists st. split; [reflexivity | lia].
  - unfold bind. destruct (Hs i st) as [Hsafe Hunsafe].
    destruct (walk_safe s) eqn:Es; cbn [andb].
    + destruct (Hsafe eq_refl) as (r & st1 & -> & Hlen1).
      destruct (IH (S i) st1) as [Hok Hbad]. split.
      * intros Hall. destruct (Hok Hall) as (st' & -> & Hlen).
        exists st'. split; [reflexivity | lia].
      * intros Hall. destruct (Hbad Hall) as (st' & ->). eauto.
    + split; [discriminate | intros _].
      destruct (Hunsafe eq_refl) as (st1 & ->). eauto.
  - unfold bind. destruct (Hmark m st) as (st1 & -> & Hlen1).
    destruct (IH i st1) as [Hok Hbad]. split.
    + intros Hall. destruct (Hok Hall) as (st' & -> & Hlen).
      exists st'. split; [reflexivity|]. cbn [List.length]. lia.
    + intros Hall. destruct (Hbad Hall) as (st' & ->). eauto.
Qed.

Lemma draw_event_one_command (self : TimelineVisualizer)
    (child : LogMessage) (depth : nat) (bottom_y w h rw : Q) (flag : bool)
    (st : State) :
  exists st',
    draw_event self child depth bottom_y w h rw flag st = (inr tt, st')
    /\ List.length (commands st') = S (List.length (commands st)).
Proof.
  unfold draw_event, commands_append. eexists. split; [reflexivity|].
  cbn [commands]. rewrite length_app. cbn [List.length]. lia.
Qed.

(** On a section that has ended the walk first emits the rectangle and
    the label, then draws the runs and visits the children. *)
Lemma process_section_closed_run (self : TimelineVisualizer) (n : string)
    (s e : Z) (cs : list Child) (depth : nat) (bottom_y : Q) (index : nat)
    (rw : Q) (flag : bool) (st : State) :
  let section := MkLogSection n s (Some e) cs in
  let rw' :=
    if Qeq_bool rw (-1) then (time_to_x self e - time_to_x self s)%Q
    else rw in
  exists st_rect w h cy,
    List.length (commands st_rect) = (List.length (commands st) + 2)%nat
    /\ process_section self section depth bottom_y index rw flag st
       = (for_each (group_event_sequences section)
            (fun run =>
               draw_event_sequence_annotations self run section depth
                 cy w h rw' flag) ;;;
          children_loop
            (fun child i =>
               process_section self child (depth + 1)
                 (bottom_y + h * build_direction_factor self)%Q i rw' flag)
            (fun child => draw_event self child depth bottom_y w h rw' flag)
            cs 0 ;;;
          ret None) st_rect.
Proof.
  intros section rw'.
  unfold section at 1. rewrite process_section_closed_eq. cbv zeta.
  fold section. fold rw'.
  unfold bind at 1. unfold enter at 1. unfold bind at 1.
  match goal with
  | |- context [draw_section_rect self section depth index bottom_y rw'
                  flag ?st1] =>
      destruct (draw_section_rect_closed self section e depth index
                  bottom_y rw' flag st1 eq_refl) as [label Hrect]
  end.
  cbv zeta in Hrect. rewrite Hrect. clear Hrect.
  eexists _, _, _, _. split; [|reflexivity].
  cbn [commands]. rewrite !length_app. cbn [List.length]. lia.
Qed.

Lemma process_section_outcome (self : TimelineVisualizer) (flag : bool)
    (section : LogSection) :
  forall depth bottom_y index rw,
    walk_outcome section
      (process_section self section depth bottom_y index rw flag).
Proof.
  induction section as [n s e cs IH] using LogSection_children_ind.
  intros depth bottom_y index rw st. destruct e as [e|].
  - destruct (process_section_closed_run self n s e cs depth bottom_y index
                rw flag st) as (st_rect & w & h & cy & Hlen2 & Hrun).
    cbv zeta in Hrun. rewrite Hrun. clear Hrun.
    set (rw' := if Qeq_bool rw (-1)
                then (time_to_x self e - time_to_x self s)%Q else rw).
    set (section := MkLogSection n s (Some e) cs).
    destruct (runs_outcome self section depth cy w h rw' flag st_rect)
      as [Hdrawn Hraised]; [discriminate|].
    cbv zeta in Hdrawn, Hraised.
    change (ParseLogs.children section) with cs in Hdrawn, Hraised.
    assert (Hsafe :
              walk_safe section
              = (negb (nonempty (events_of cs)) || forallb child_closed cs)
                && forallb (fun c => match c with
                                     | ChildSection s' => walk_safe s'
                                     | ChildMessage _ => true
                                     end) cs) by reflexivity.
    assert (Hcount :
              command_count section
              = (2 + 4 * List.length (events_of cs)
                 + list_sum (map (fun c => match c with
                                           | ChildSection s' =>
                                               command_count s'
                                           | ChildMessage _ => 0%nat
                                           end) cs))%nat) by reflexivity.
    rewrite Hsafe, Hcount. clear Hsafe Hcount.
    unfold bind.
    destruct (negb (nonempty (events_of cs)) || forallb child_closed cs)
      eqn:Hann; cbn [andb].
    + destruct (Hdrawn eq_refl) as (st3 & Hfor & Hlen3). rewrite Hfor.
      match goal with
      | |- context [children_loop ?wk ?mk cs 0%nat st3] =>
          destruct (children_loop_outcome wk mk cs) with (i := 0%nat)
                                                          (st := st3)
            as [Hok Hbad]
      end.
      * intros m st0. apply draw_event_one_command.
      * eapply Forall_impl; [|exact IH]. intros [c|m] Hc; [|exact I].
        intros i. apply Hc.
      * split.
        -- intros Hall. destruct (Hok Hall) as (st' & Hloop & Hlen).
           exists None, st'. rewrite Hloop. split; [reflexivity | lia].
        -- intros Hall. destruct (Hbad Hall) as (st' & Hloop).
           exists st'. rewrite Hloop. reflexivity.
    + split; [discriminate | intros _].
      destruct (Hraised eq_refl) as (st3 & Hfor). rewrite Hfor. eauto.
  - cbn [walk_safe command_count]. split; [intros _ | discriminate].
    rewrite process_section_open by reflexivity.
    eexists _, _. split; [reflexivity|]. cbn [commands]. lia.
Qed.

(** X7: a walk returns exactly when, below every section it renders, no
    point-event stands beside a child section without [end_time]; in every
    other case it raises [TypeError]. *)
Theorem process_section_returns_iff_safe (self : TimelineVisualizer)
    (section : LogSection) (depth : nat) (bottom_y : Q) (index : nat)
    (rw : Q) (flag : bool) (st : State) :
  (walk_safe section = true <->
   exists r,
     fst (process_section self section depth bottom_y index rw flag st)
     = inr r)
  /\ (walk_safe section = false <->
      fst (process_section self section depth bottom_y index rw flag st)
      = inl TypeError).
Proof.
  destruct (process_section_outcome self flag section depth bottom_y index
              rw st) as [Hsafe Hunsafe].
  destruct (walk_safe section).
  - destruct (Hsafe eq_refl) as (r & st' & Hrun & _). rewrite Hrun.
    cbn [fst]. split; split; try discriminate; eauto.
  - destruct (Hunsafe eq_refl) as (st' & Hrun). rewrite Hrun.
    cbn [fst]. split; split; try discriminate; try reflexivity.
    intros [r Hr]. discriminate Hr.
Qed.

(** X8: a walk that goes through emits two commands for every section it
    renders and four for every point-event of a rendered section, and
    nothing for a section left open or for what lies below it. *)
Theorem process_section_command_count (self : TimelineVisualizer)
    (section : LogSection) (depth : nat) (bottom_y : Q) (index : nat)
    (rw : Q) (flag : bool) (st : State) :
  walk_safe section = true ->
  List.length
    (commands (snd (process_section self section depth bottom_y index rw
                      flag st)))
  = (List.length (commands st) + command_count section)%nat.
Proof.
  intros Hsafe.
  destruct (process_section_outcome self flag section depth bottom_y index
              rw st) as [Hok _].
  destruct (Hok Hsafe) as (r & st' & Hrun & Hlen). rewrite Hrun.
  exact Hlen.
Qed.

Lemma process_section_command_count_witness :
  walk_safe demo_root = true
  /\ List.length
       (commands (snd (process_section demo demo_root 0 0.15%Q 0 (-1)%Q
                         false initial_state)))
     = (List.length (commands initial_state) + command_count demo_root)%nat.
Proof.
  split; [reflexivity|].
  apply (process_section_command_count demo demo_root 0 0.15%Q 0 (-1)%Q
           false initial_state).
  reflexivity.
Defined.

(** ** The axis *)

Lemma draw_ticks_emits (self : TimelineVisualizer) (ticks : list nat) :
  forall st,
  exists cmds areas,
    for_each ticks (draw_tick self) st
    = (inr tt, {| commands := commands st ++ cmds;
                  used_text_areas := used_text_areas st ++ areas;
                  calls := calls st |})
    /\ List.length cmds = (2 * List.length ticks)%nat
    /\ List.length areas = List.length ticks.
Proof.
  induction ticks as [|i ticks IH]; intros st; cbn [for_each].
  - exists [], []. unfold ret. rewrite !app_nil_r, state_eta.
    repeat split; reflexivity.
  - unfold bind at 1. unfold draw_tick at 1.
    unfold bind, commands_append, used_text_areas_append.
    cbn [commands used_text_areas calls].
    match goal with
    | |- context [for_each ticks _ ?st1] =>
        destruct (IH st1) as (cmds & areas & Hrun & Hc & Ha)
    end.
    rewrite Hrun. cbn [commands used_text_areas calls].
    eexists (_ :: _ :: cmds), (_ :: areas). split; [|split].
    + rewrite <- !app_assoc. reflexivity.
    + cbn [List.length]. lia.
    + cbn [List.length]. lia.
Qed.

(** What the axis part of [generate] appends. *)
Lemma timeline_emits (self : TimelineVisualizer) (st : State) :
  exists cmds areas,
    (if draw_timeline self then draw_base_timeline self ;;; draw_ticks self
     else ret tt) st
    = (inr tt, {| commands := commands st ++ cmds;
                  used_text_areas := used_text_areas st ++ areas;
                  calls := calls st |})
    /\ (draw_timeline self = true ->
        exists ticks,
          cmds = generate_rectangle (-0) (base_timeline_position_y self) 0 2
                   0.02 (0.5, 0.5, 0.5)%Q :: ticks
          /\ List.length ticks = 22%nat /\ List.length areas = 11%nat)
    /\ (draw_timeline self = false -> cmds = [] /\ areas = []).
Proof.
  destruct (draw_timeline self).
  - unfold bind at 1. unfold draw_base_timeline, commands_append.
    cbn [commands used_text_areas calls]. unfold draw_ticks.
    match goal with
    | |- context [for_each _ _ ?st1] =>
        destruct (draw_ticks_emits self (seq 0 11) st1)
          as (cmds & areas & Hrun & Hc & Ha)
    end.
    rewrite Hrun. cbn [commands used_text_areas calls].
    eexists (_ :: cmds), areas. split; [|split; [|discriminate]].
    + rewrite <- app_assoc. reflexivity.
    + intros _. exists cmds. split; [reflexivity|]. split; assumption.
  - exists [], []. unfold ret. rewrite !app_nil_r, state_eta.
    split; [reflexivity|].
    split; [discriminate | intros _; split; reflexivity].
Qed.

(** A pass is the walk of the root, started from the lists the axis
    left. *)
Lemma generate_run (self : TimelineVisualizer) (st : State) :
  exists cmds areas,
    generate self st
    = (process_section self (root_section self) 0
         (base_timeline_position_y self
          + (timeline_tick_height self / 2 + 0.1)
            * build_direction_factor self)%Q 0 (-1)%Q false ;;;
       (fun st' => (inr (commands st'), st')))
        {| commands := cmds; used_text_areas := areas; calls := calls st |}
    /\ (draw_timeline self = true ->
        exists ticks,
          cmds = generate_rectangle (-0) (base_timeline_position_y self) 0 2
                   0.02 (0.5, 0.5, 0.5)%Q :: ticks
          /\ List.length ticks = 22%nat /\ List.length areas = 11%nat)
    /\ (draw_timeline self = false -> cmds = [] /\ areas = []).
Proof.
  unfold generate. unfold bind at 1. unfold clear_lists at 1.
  unfold bind at 1.
  match goal with
  | |- context [(if draw_timeline self then _ else _) ?st0] =>
      destruct (timeline_emits self st0)
        as (cmds & areas & Haxis & Hdrawn & Hnone)
  end.
  rewrite Haxis. cbn [commands used_text_areas calls app].
  exists cmds, areas. split; [reflexivity|]. split; assumption.
Qed.

(** X9: [generate] returns exactly when the walk of the root goes through
    and raises [TypeError] otherwise; when it returns, its list holds the
    23 commands of the axis if the axis is drawn, then two commands for
    every rendered section and four for every point-event of a rendered
    section. *)
Theorem generate_outcome (self : TimelineVisualizer) (st : State) :
  (walk_safe (root_section self) = true ->
   exists cmds,
     fst (generate self st) = inr cmds
     /\ List.length cmds
        = ((if draw_timeline self then 23 else 0)
           + command_count (root_section self))%nat)
  /\ (walk_safe (root_section self) = false ->
      fst (generate self st) = inl TypeError).
Proof.
  destruct (generate_run self st) as (cmds & areas & -> & Hdrawn & Hnone).
  assert (Hlen : List.length cmds
                 = if draw_timeline self then 23%nat else 0%nat).
  { destruct (draw_timeline self).
    - destruct (Hdrawn eq_refl) as (ticks & -> & Hticks & _).
      cbn [List.length]. rewrite Hticks. reflexivity.
    - destruct (Hnone eq_refl) as [-> _]. reflexivity. }
  unfold bind.
  match goal with
  | |- context [process_section self ?sec ?d ?y ?i ?rw ?b ?st1] =>
      destruct (process_section_outcome self b sec d y i rw st1)
        as [Hok Hbad]
  end.
  split.
  - intros Hsafe. destruct (Hok Hsafe) as (r & st' & Hrun & Hcount).
    rewrite Hrun. exists (commands st'). split; [reflexivity|].
    rewrite Hcount. cbn [commands]. rewrite Hlen. reflexivity.
  - intros Hunsafe. destruct (Hbad Hunsafe) as (st' & Hrun).
    rewrite Hrun. reflexivity.
Qed.

Section AreasKept.

Lemma areas_kept_ret {A} (a : A) : areas_kept (ret a).
Proof. intros st. reflexivity. Qed.

Lemma areas_kept_lift {A} (r : exn + A) : areas_kept (lift r).
Proof. intros st. destruct r; reflexivity. Qed.

Lemma areas_kept_commands_append (c : Command) :
  areas_kept (commands_append c).
Proof. intros st. reflexivity. Qed.

Lemma areas_kept_enter (c : Call) : areas_kept (enter c).
Proof. intros st. reflexivity. Qed.

Lemma areas_kept_bind {A B} (m : M A) (f : A -> M B) :
  areas_kept m -> (forall a, areas_kept (f a)) -> areas_kept (bind m f).
Proof.
  intros Hm Hf st. unfold bind. specialize (Hm st).
  destruct (m st) as [[e|a] st1]; cbn [snd] in *; [exact Hm|].
  rewrite Hf. exact Hm.
Qed.

Lemma areas_kept_for_each {A} (xs : list A) (body : A -> M unit) :
  (forall x, areas_kept (body x)) -> areas_kept (for_each xs body).
Proof.
  intros Hbody. induction xs as [|x xs IH]; cbn [for_each].
  - apply areas_kept_ret.
  - apply areas_kept_bind; [apply Hbody | intros _; exact IH].
Qed.

Lemma areas_kept_for_each_enumerate {A} (xs : list A)
    (body : nat -> A -> M unit) :
  (forall i x, areas_kept (body i x)) ->
  forall i, areas_kept (for_each_enumerate i xs body).
Proof.
  intros Hbody. induction xs as [|x xs IH]; intros i;
    cbn [for_each_enumerate].
  - apply areas_kept_ret.
  - apply areas_kept_bind; [apply Hbody | intros _; apply IH].
Qed.

Lemma areas_kept_children_loop (walk : LogSection -> nat -> M (option Q))
    (mark : LogMessage -> M unit) (cs : list Child) :
  Forall (fun c => match c with
                   | ChildSection s => forall i, areas_kept (walk s i)
                   | ChildMessage _ => True
                   end) cs ->
  (forall m, areas_kept (mark m)) ->
  forall i, areas_kept (children_loop walk mark cs i).
Proof.
  intros Hwalk Hmark.
  induction Hwalk as [|[s|m] cs Hs _ IH]; intros i; cbn [children_loop].
  - apply areas_kept_ret.
  - apply areas_kept_bind; [apply Hs | intros _; apply IH].
  - apply areas_kept_bind; [apply Hmark | intros _; apply IH].
Qed.

End AreasKept.

(** The walk claims no text area. *)
Lemma areas_kept_process_section (self : TimelineVisualizer) (flag : bool)
    (section : LogSection) :
  forall depth bottom_y index rw,
    areas_kept (process_section self section depth bottom_y index rw flag).
Proof.
  induction section as [n s e cs IH] using LogSection_children_ind.
  intros depth bottom_y index rw. destruct e as [e|].
  - rewrite process_section_closed_eq. cbv zeta.
    apply areas_kept_bind; [apply areas_kept_enter | intros _].
    apply areas_kept_bind.
    { unfold draw_section_rect.
      apply areas_kept_bind; [apply areas_kept_enter | intros _].
      apply areas_kept_bind; [apply areas_kept_lift | intros t].
      apply areas_kept_bind; [apply areas_kept_commands_append | intros _].
      apply areas_kept_bind; [apply areas_kept_commands_append | intros _].
      apply areas_kept_ret. }
    intros [[w h] cy].
    apply areas_kept_bind.
    { apply areas_kept_for_each. intros run.
      unfold draw_event_sequence_annotations.
      apply areas_kept_bind; [apply areas_kept_enter | intros _].
      apply areas_kept_bind; [apply areas_kept_lift | intros lay].
      apply areas_kept_for_each_enumerate. intros i event.
      unfold draw_annotation.
      apply areas_kept_bind; [apply areas_kept_commands_append | intros _].
      apply areas_kept_bind; [apply areas_kept_commands_append | intros _].
      apply areas_kept_commands_append. }
    intros _.
    apply areas_kept_bind; [|intros _; apply areas_kept_ret].
    apply areas_kept_children_loop.
    + eapply Forall_impl; [|exact IH]. intros [c|m] Hc; [|exact I].
      intros i. apply Hc.
    + intros m. unfold draw_event. apply areas_kept_commands_append.
  - cbn [process_section].
    apply areas_kept_bind; [apply areas_kept_enter | intros _].
    apply areas_kept_ret.
Qed.

(** X10: when the axis is drawn, the commands of a pass start with the base
    rectangle of the axis, two units wide at [base_timeline_position_y],
    followed by the 22 commands of the eleven ticks, before anything of the
    sections, also when the pass raises later on; the eleven text areas of
    the tick labels are the only ones a pass claims. *)
Theorem generate_axis_first (self : TimelineVisualizer) (st : State) :
  (draw_timeline self = true ->
   exists ticks rest,
     commands (snd (generate self st))
     = generate_rectangle (-0) (base_timeline_position_y self) 0 2 0.02
         (0.5, 0.5, 0.5)%Q :: ticks ++ rest
     /\ List.length ticks = 22%nat
     /\ List.length (used_text_areas (snd (generate self st))) = 11%nat)
  /\ (draw_timeline self = false ->
      used_text_areas (snd (generate self st)) = []).
Proof.
  destruct (generate_run self st) as (cmds & areas & -> & Hdrawn & Hnone).
  set (walk := process_section self (root_section self) 0
                 (base_timeline_position_y self
                  + (timeline_tick_height self / 2 + 0.1)
                    * build_direction_factor self)%Q 0 (-1)%Q false).
  set (st0 := {| commands := cmds; used_text_areas := areas;
                 calls := calls st |}).
  assert (Hsnd : snd ((walk ;;; (fun st' => (inr (commands st'), st'))) st0)
                 = snd (walk st0)).
  { unfold bind. destruct (walk st0) as [[e|r] st1]; reflexivity. }
  rewrite Hsnd. clear Hsnd.
  pose proof (areas_kept_process_section self false (root_section self) 0
                (base_timeline_position_y self
                 + (timeline_tick_height self / 2 + 0.1)
                   * build_direction_factor self)%Q 0 (-1)%Q st0) as Hareas.
  fold walk in Hareas. rewrite Hareas.
  destruct (appends_process_section self false (root_section self) 0
              (base_timeline_position_y self
               + (timeline_tick_height self / 2 + 0.1)
                 * build_direction_factor self)%Q 0 (-1)%Q)
    as (r & out & areas' & tr & Hwalk).
  fold walk in Hwalk. rewrite (Hwalk st0).
  cbn [snd commands used_text_areas st0]. split.
  - intros Hyes. destruct (Hdrawn Hyes) as (ticks & -> & Hticks & Hareas').
    exists ticks, out. repeat split; assumption.
  - intros Hno. destruct (Hnone Hno) as [_ ->]. reflexivity.
Qed.

(** ** More on the grouper *)

(** X11: the runs of a section, put end to end, list every point-event
    child of the section exactly once, in ascending order of timestamp;
    no event is lost, repeated or moved after a later one. *)
Theorem group_event_sequences_covers (section : LogSection) :
  Permutation (events_of (ParseLogs.children section))
    (List.concat (group_event_sequences section))
  /\ StronglySorted timestamp_le
       (List.concat (group_event_sequences section))
  /\ List.length (List.concat (group_event_sequences section))
     = List.length (events_of (ParseLogs.children section)).
Proof.
  assert (Hcat : List.concat (group_event_sequences section)
                 = events_of (sorted anchor (ParseLogs.children section))).
  { rewrite group_event_sequences_refines. unfold maximal_runs.
    rewrite concat_filter_nonempty. apply concat_split_at_sections. }
  split; [|split].
  - rewrite Hcat. apply events_of_perm, sorted_perm.
  - rewrite Hcat. apply events_of_ascending.
    apply (sorted_ascending anchor).
  - apply group_event_sequences_length.
Qed.

(** ** When a run can be laid out *)

Lemma left_bound_time_inr_closed (parent : LogSection) (first : LogMessage)
    (t : Z) :
  left_bound_time parent first = inr t -> children_closed parent.
Proof.
  intros H. apply children_closed_forallb.
  destruct (forallb child_closed (ParseLogs.children parent)) eqn:E;
    [reflexivity|].
  unfold left_bound_time in H.
  rewrite (sections_ending_before_open _ (timestamp first) E) in H.
  discriminate H.
Qed.

Lemma right_bound_time_of_section (parent : LogSection)
    (last_event : LogMessage) (s : LogSection) :
  In (ChildSection s) (ParseLogs.children parent) ->
  timestamp last_event <= ParseLogs.start_time s ->
  exists t, right_bound_time parent last_event = Some t.
Proof.
  intros Hs Hle. unfold right_bound_time.
  pose proof (sections_starting_after_spec (ParseLogs.children parent)
                (timestamp last_event) (ParseLogs.start_time s)) as Hin.
  destruct (map ParseLogs.start_time _) as [|x xs]; cbn [min_default];
    [|eauto].
  exfalso. apply (proj2 Hin). exists s. auto.
Qed.

Lemma annotation_layout_of_bounds (self : TimelineVisualizer)
    (first : LogMessage) (rest : list LogMessage) (parent : LogSection)
    (depth : nat) (cy w h rw : Q) (flag : bool) (l r : Z) :
  left_bound_time parent first = inr l ->
  right_bound_time parent (last (first :: rest) first) = Some r ->
  exists lay,
    annotation_layout self (first :: rest) parent depth cy w h rw flag
    = inr lay.
Proof.
  intros Hl Hr. unfold annotation_layout. rewrite Hl, Hr. eauto.
Qed.

(** X12: the annotation renderer lays a run out exactly when the run is not
    empty, every child section of the parent has an [end_time], and the
    parent has an [end_time] or some child section starts at or after the
    last event of the run.  An empty run raises [IndexError]; and whenever
    the layout raises, the renderer raises the same exception without
    emitting a command. *)
Theorem annotation_layout_defined_iff (self : TimelineVisualizer)
    (run : list LogMessage) (parent : LogSection) (depth : nat)
    (cy w h rw : Q) (flag : bool) :
  ((exists lay,
      annotation_layout self run parent depth cy w h rw flag = inr lay)
   <->
   exists first,
     hd_error run = Some first
     /\ children_closed parent
     /\ (ParseLogs.end_time parent <> None
         \/ exists s, In (ChildSection s) (ParseLogs.children parent)
                      /\ timestamp (last run first)
                         <= ParseLogs.start_time s))
  /\ (run = [] ->
      annotation_layout self run parent depth cy w h rw flag
      = inl IndexError)
  /\ (forall e st,
        annotation_layout self run parent depth cy w h rw flag = inl e ->
        fst (draw_event_sequence_annotations self run parent depth cy w h
               rw flag st) = inl e
        /\ commands
             (snd (draw_event_sequence_annotations self run parent depth
                     cy w h rw flag st)) = commands st).
Proof.
  split; [split|split].
  - intros [lay Hlay].
    destruct (annotation_layout_inr _ _ _ _ _ _ _ _ _ _ Hlay)
      as (first & rest & l & r & -> & Hl & Hr & _).
    exists first. split; [reflexivity|].
    split; [exact (left_bound_time_inr_closed _ _ _ Hl)|].
    destruct (right_bound_time_spec _ _ _ Hr) as [[(s & Hs & Hst & Hle) _]
                                                 |[_ Hend]].
    + right. exists s. split; [exact Hs | lia].
    + left. congruence.
  - intros (first & Hhd & Hclosed & Hright).
    destruct run as [|first' rest]; [discriminate|].
    injection Hhd as ->.
    destruct (left_bound_time_closed parent first Hclosed) as [l Hl].
    assert (Hr : exists r,
               right_bound_time parent (last (first :: rest) first)
               = Some r).
    { destruct Hright as [Hend|(s & Hs & Hle)].
      - apply right_bound_time_closed. exact Hend.
      - apply (right_bound_time_of_section _ _ s Hs Hle). }
    destruct Hr as [r Hr].
    apply (annotation_layout_of_bounds self first rest parent depth cy w h
             rw flag l r Hl Hr).
  - intros ->. reflexivity.
  - intros e st Hlay.
    rewrite (draw_event_sequence_annotations_raises self run parent depth cy
               w h rw flag e st Hlay).
    split; reflexivity.
Qed.

(** ** Packing of the annotation boxes *)

(** X13: each event of a run gets a box, the [k]-th box centred half a
    box after [x_start + k * (box + margin)]: the first box starts at the
    left bound of the available span, and for an available width that is
    not negative and a run of at most 100 events a later box is never to
    the left of an earlier one.  For a positive available width the boxes
    have a positive width in a run of at most 100 events and a negative
    one in a run of 102 events or more. *)
Theorem annotation_boxes_packing (self : TimelineVisualizer)
    (run : list LogMessage) (parent : LogSection) (depth : nat)
    (cy w h rw : Q) (flag : bool) (lay : AnnotationLayout) :
  annotation_layout self run parent depth cy w h rw flag = inr lay ->
  let box_w := annotation_rect_width lay in
  let step := (box_w + margin lay)%Q in
  let center k :=
    (available_area_x_start lay + inject_Z (Z.of_nat k) * step
     + box_w / 2)%Q in
  (forall st,
   exists cmds,
     commands
       (snd (draw_event_sequence_annotations self run parent depth cy w h
               rw flag st))
     = commands st ++ cmds
     /\ forall k event,
          nth_error run k = Some event ->
          exists cy' height color,
            nth_error cmds (3 * k)
            = Some (generate_rectangle (center k) cy' 0 box_w height color))
  /\ (center 0%nat == available_area_x_start lay + box_w / 2)%Q
  /\ ((0 <= available_width lay)%Q -> (List.length run <= 100)%nat ->
      forall j k, (j <= k)%nat -> (center j <= center k)%Q)
  /\ ((0 < available_width lay)%Q ->
      ((List.length run <= 100)%nat -> (0 < box_w)%Q)
      /\ ((102 <= List.length run)%nat -> (box_w < 0)%Q)).
Proof.
  intros Hlay box_w step center.
  destruct (annotation_layout_inr _ _ _ _ _ _ _ _ _ _ Hlay)
    as (first & rest & l & r & Hrun & _ & _ & Hxs & Hxe & HW & Hm & Hw & _).
  set (n := inject_Z (Z.of_nat (List.length run))) in *.
  assert (Hn1 : (1 <= n)%Q)
    by (unfold n; rewrite Hrun; apply run_length_ge_one).
  assert (Hn0 : ~ (n == 0)%Q) by (intros E; lra).
  assert (Hprod : (box_w * (100 * n)
                   == available_width lay * (101 - n))%Q).
  { unfold box_w. rewrite Hw, Hm. field. exact Hn0. }
  assert (Hnat : forall k : nat,
             ((n <= inject_Z (Z.of_nat k))%Q <-> (List.length run <= k)%nat)).
  { intros k. unfold n. rewrite <- Zle_Qle. lia. }
  split; [|split; [|split]].
  - intros st.
    unfold draw_event_sequence_annotations, bind, enter, lift.
    rewrite Hlay. unfold ret.
    match goal with
    | |- context [for_each_enumerate 0 run _ ?st1] =>
        destruct (draw_annotations_boxes self lay depth w h rw flag run 0
                    st1) as (cmds & Hcmds & Hnth)
    end.
    exists cmds. split.
    + destruct (for_each_enumerate 0 run _ _) as [[e|[]] st'];
        cbn [snd] in *; exact Hcmds.
    + intros k event Hk. rewrite (Hnth k event Hk).
      eexists _, _, _. reflexivity.
  - unfold center. change (inject_Z (Z.of_nat 0)) with 0%Q. ring.
  - intros HWnn Hlen j k Hjk.
    apply (Hnat 100%nat) in Hlen. change (inject_Z (Z.of_nat 100)) with 100%Q
      in Hlen.
    assert (Hbox : (0 <= box_w)%Q) by nra.
    assert (Hstep : (0 <= step)%Q) by (unfold step; rewrite Hm; lra).
    assert (Hjk' : (inject_Z (Z.of_nat j) <= inject_Z (Z.of_nat k))%Q)
      by (rewrite <- Zle_Qle; lia).
    unfold center. nra.
  - intros HWpos. split; intros Hlen.
    + apply (Hnat 100%nat) in Hlen.
      change (inject_Z (Z.of_nat 100)) with 100%Q in Hlen. nra.
    + assert (Hge : (102 <= n)%Q).
      { unfold n. change 102%Q with (inject_Z (Z.of_nat 102)).
        rewrite <- Zle_Qle. lia. }
      nra.
Qed.

Lemma annotation_boxes_packing_witness :
  exists lay,
    annotation_layout packed packed_run packed_root 0 0.155%Q 1 0.01%Q 1
      false = inr lay
    /\ (0 < available_width lay)%Q
    /\ (List.length packed_run <= 100)%nat
    /\ (0 < annotation_rect_width lay)%Q.
Proof.
  eexists. split; [reflexivity|].
  match goal with
  | |- context [annotation_rect_width ?lay] =>
      pose proof (annotation_boxes_packing packed packed_run packed_root 0
                    0.155%Q 1 0.01%Q 1 false lay eq_refl)
        as (_ & _ & _ & Hsign)
  end.
  split; [reflexivity|]. split; [cbn; lia|].
  apply Hsign; [reflexivity | cbn; lia].
Defined.

(** ** The span of a run holds its events *)

Lemma time_to_x_le (self : TimelineVisualizer) (a b : Z) :
  (0 <= ndc_units_per_second self)%Q -> a <= b ->
  (time_to_x self a <= time_to_x self b)%Q.
Proof.
  intros Hscale Hab. unfold time_to_x.
  apply Qmult_le_compat_r; [|exact Hscale].
  unfold total_seconds, Qdiv.
  apply Qmult_le_compat_r; [|discriminate].
  rewrite <- Zle_Qle. lia.
Qed.

Lemma in_events_of (cs : list Child) (m : LogMessage) :
  In m (events_of cs) <-> In (ChildMessage m) cs.
Proof.
  induction cs as [|[s|m'] cs IH]; cbn [events_of In].
  - tauto.
  - rewrite IH. split; [auto | intros [H|H]; [discriminate | exact H]].
  - rewrite IH. split.
    + intros [->|H]; auto.
    + intros [H|H]; [injection H as ->; auto | auto].
Qed.

Lemma StronglySorted_app_l {A} (R : A -> A -> Prop) (l1 l2 : list A) :
  StronglySorted R (l1 ++ l2) -> StronglySorted R l1.
Proof.
  induction l1 as [|x l1 IH]; cbn [app]; intros H; [constructor|].
  inversion H as [|? ? Hs Hx]; subst. constructor; [apply IH; exact Hs|].
  apply Forall_app in Hx. tauto.
Qed.

Lemma StronglySorted_app_r {A} (R : A -> A -> Prop) (l1 l2 : list A) :
  StronglySorted R (l1 ++ l2) -> StronglySorted R l2.
Proof.
  induction l1 as [|x l1 IH]; cbn [app]; intros H; [exact H|].
  inversion H; subst. apply IH. assumption.
Qed.

Lemma last_cons_default {A} (l : list A) :
  forall x d d', last (x :: l) d = last (x :: l) d'.
Proof.
  induction l as [|y l IH]; intros x d d'; [reflexivity|].
  change (last (x :: y :: l) d) with (last (y :: l) d).
  change (last (x :: y :: l) d') with (last (y :: l) d').
  apply IH.
Qed.

Lemma last_cons_in {A} (l : list A) :
  forall x d, In (last (x :: l) d) (x :: l).
Proof.
  induction l as [|y l IH]; intros x d; [left; reflexivity|].
  change (last (x :: y :: l) d) with (last (y :: l) d).
  right. apply IH.
Qed.

Lemma ascending_le_last (first : LogMessage) (rest : list LogMessage)
    (x : LogMessage) :
  StronglySorted timestamp_le (first :: rest) ->
  In x (first :: rest) ->
  timestamp first <= timestamp x
  /\ timestamp x <= timestamp (last (first :: rest) first).
Proof.
  revert first x. induction rest as [|y rest IH]; intros first x Hs Hx.
  - destruct Hx as [<-|[]]. cbn [last]. lia.
  - inversion Hs as [|? ? Hs' Hall]; subst.
    inversion Hall as [|? ? Hfy _]; subst. unfold timestamp_le in Hfy.
    change (last (first :: y :: rest) first) with (last (y :: rest) first).
    rewrite (last_cons_default rest y first y).
    destruct Hx as [<-|Hx].
    + destruct (IH y y Hs' (or_introl eq_refl)) as [_ H2]. lia.
    + destruct (IH y x Hs' Hx) as [H1 H2]. lia.
Qed.

Lemma run_of_section_ascending (section : LogSection)
    (run : list LogMessage) :
  In run (group_event_sequences section) ->
  StronglySorted timestamp_le run
  /\ forall m, In m run -> In (ChildMessage m) (ParseLogs.children section).
Proof.
  intros Hrun.
  assert (Hcat : List.concat (group_event_sequences section)
                 = events_of (sorted anchor (ParseLogs.children section))).
  { rewrite group_event_sequences_refines. unfold maximal_runs.
    rewrite concat_filter_nonempty. apply concat_split_at_sections. }
  pose proof (events_of_ascending _
                (sorted_ascending anchor (ParseLogs.children section)))
    as Hsorted.
  rewrite <- Hcat in Hsorted.
  destruct (in_split _ _ Hrun) as (r1 & r2 & Hsplit). split.
  - rewrite Hsplit, concat_app in Hsorted. cbn [List.concat] in Hsorted.
    apply StronglySorted_app_r in Hsorted.
    apply StronglySorted_app_l in Hsorted. exact Hsorted.
  - intros m Hm.
    assert (Hin : In m (List.concat (group_event_sequences section))).
    { apply in_concat. exists run. auto. }
    rewrite Hcat in Hin. apply in_events_of in Hin.
    eapply Permutation_in; [|exact Hin].
    apply Permutation_sym, sorted_perm.
Qed.

(** X14: for a run made by the grouper, under a parent that has ended, whose
    child sections have ended and whose point-events lie within its own
    span, the layout is defined, the left bound is at or before the first
    event and the right bound at or after the last one; so with a scale
    that is not negative the available width is not negative and every
    event of the run is mapped inside the available span. *)
Theorem annotation_span_holds_run (self : TimelineVisualizer)
    (parent : LogSection) (parent_end : Z) (run : list LogMessage)
    (depth : nat) (cy w h rw : Q) (flag : bool) :
  ParseLogs.end_time parent = Some parent_end ->
  children_closed parent ->
  (forall m, In (ChildMessage m) (ParseLogs.children parent) ->
             ParseLogs.start_time parent <= timestamp m <= parent_end) ->
  (0 <= ndc_units_per_second self)%Q ->
  In run (group_event_sequences parent) ->
  exists lay,
    annotation_layout self run parent depth cy w h rw flag = inr lay
    /\ (0 <= available_width lay)%Q
    /\ forall event, In event run ->
         (available_area_x_start lay <= time_to_x self (timestamp event))%Q
         /\ (time_to_x self (timestamp event)
             <= available_area_x_end lay)%Q.
Proof.
  intros Hend Hclosed Hspan Hscale Hrun.
  destruct (run_of_section_ascending parent run Hrun) as [Hsorted Hmem].
  assert (Hne : run <> []).
  { pose proof (runs_nonempty parent) as Hall.
    rewrite Forall_forall in Hall. apply Hall. exact Hrun. }
  destruct (annotation_layout_closed self run parent depth cy w h rw flag
              Hne Hclosed) as [lay Hlay]; [congruence|].
  exists lay. split; [exact Hlay|].
  destruct (annotation_layout_inr _ _ _ _ _ _ _ _ _ _ Hlay)
    as (first & rest & l & r & -> & Hl & Hr & Hxs & Hxe & HW & _).
  assert (Hleft : l <= timestamp first).
  { destruct (left_bound_time_spec _ _ _ Hl)
      as [[(s & _ & _ & Hle) _]|[_ ->]]; [exact Hle|].
    apply (Hspan first). apply Hmem. left. reflexivity. }
  assert (Hright : timestamp (last (first :: rest) first) <= r).
  { destruct (right_bound_time_spec _ _ _ Hr)
      as [[(s & _ & <- & Hle) _]|[_ Hpe]]; [exact Hle|].
    rewrite Hend in Hpe. injection Hpe as <-.
    apply (Hspan (last (first :: rest) first)). apply Hmem.
    apply last_cons_in. }
  assert (Hevents : forall event, In event (first :: rest) ->
                      l <= timestamp event <= r).
  { intros event Hev.
    destruct (ascending_le_last first rest event Hsorted Hev). lia. }
  split.
  - rewrite HW.
    assert (Hlr : l <= r)
      by (specialize (Hevents first (or_introl eq_refl)); lia).
    pose proof (time_to_x_le self l r Hscale Hlr). lra.
  - intros event Hev. destruct (Hevents event Hev) as [H1 H2].
    rewrite Hxs, Hxe. split; apply time_to_x_le; assumption.
Qed.

Lemma demo_root_events_within_span (m : LogMessage) :
  In (ChildMessage m) (ParseLogs.children demo_root) ->
  ParseLogs.start_time demo_root <= timestamp m <= 2000000.
Proof.
  intros [H|[H|[]]]; [discriminate|].
  injection H as <-. cbn. lia.
Qed.

Lemma annotation_span_holds_run_witness :
  ParseLogs.end_time demo_root = Some 2000000
  /\ (0 <= ndc_units_per_second demo)%Q
  /\ In [demo_event] (group_event_sequences demo_root)
  /\ exists lay,
       annotation_layout demo [demo_event] demo_root 0 0.155%Q 1 0.01%Q 1
         false = inr lay
       /\ (0 <= available_width lay)%Q
       /\ forall event, In event [demo_event] ->
            (available_area_x_start lay
             <= time_to_x demo (timestamp event))%Q
            /\ (time_to_x demo (timestamp event)
                <= available_area_x_end lay)%Q.
Proof.
  split; [reflexivity|]. split; [discriminate|].
  split; [left; reflexivity|].
  apply (annotation_span_holds_run demo demo_root 2000000 [demo_event] 0
           0.155%Q 1 0.01%Q 1 false).
  - reflexivity.
  - exact demo_root_children_closed.
  - exact demo_root_events_within_span.
  - discriminate.
  - left. reflexivity.
Defined.

(** ** Construction *)

Lemma read_digits_bound (n : nat) (acc : Z) (s : string) :
  0 <= acc ->
  let '(v, k, _) := read_digits n acc s in
  (k <= n)%nat /\ acc * 10 ^ Z.of_nat k <= v
  /\ v < (acc + 1) * 10 ^ Z.of_nat k.
Proof.
  revert acc s. induction n as [|n IH]; intros acc s Hacc.
  - cbn [read_digits]. change (10 ^ Z.of_nat 0) with 1. split; [lia|lia].
  - destruct s as [|a rest].
    + cbn [read_digits]. change (10 ^ Z.of_nat 0) with 1. split; [lia|lia].
    + cbn [read_digits]. destruct (is_digit a) eqn:Ea.
      * assert (Hd : 0 <= digit_value a <= 9).
        { unfold is_digit in Ea. apply andb_true_iff in Ea as [E1 E2].
          apply Nat.leb_le in E1, E2. unfold digit_value. lia. }
        specialize (IH (10 * acc + digit_value a) rest ltac:(lia)).
        destruct (read_digits n (10 * acc + digit_value a) rest)
          as [[v k] rest'].
        destruct IH as [Hk [Hlo Hhi]].
        rewrite Nat2Z.inj_succ, Z.pow_succ_r by lia.
        assert (Hp : 0 < 10 ^ Z.of_nat k) by (apply Z.pow_pos_nonneg; lia).
        split; [lia|]. split; nia.
      * change (10 ^ Z.of_nat 0) with 1. split; [lia|lia].
Qed.

Lemma read_field_bound (max : Z) (s : string) (v : Z) (rest : string) :
  9 <= max -> read_field max s = Some (v, rest) -> 0 <= v <= max.
Proof.
  intros Hmax.
  assert (Hd : forall a, is_digit a = true -> 0 <= digit_value a <= 9).
  { intros a Ea. unfold is_digit in Ea. apply andb_true_iff in Ea as [E1 E2].
    apply Nat.leb_le in E1, E2. unfold digit_value. lia. }
  unfold read_field. destruct s as [|a [|b s']].
  - discriminate.
  - destruct (is_digit a) eqn:Ea; [|discriminate].
    intros H. injection H as <- _. pose proof (Hd a Ea). lia.
  - destruct (is_digit a) eqn:Ea; cbn [andb].
    + destruct (is_digit b) eqn:Eb; cbn [andb].
      * set (n := 10 * digit_value a + digit_value b).
        destruct (n <=? max) eqn:E.
        -- intros H. injection H as <- _. apply Z.leb_le in E.
           pose proof (Hd a Ea). pose proof (Hd b Eb).
           split; [unfold n; lia | exact E].
        -- intros H. injection H as <- _. pose proof (Hd a Ea). lia.
      * intros H. injection H as <- _. pose proof (Hd a Ea). lia.
    + discriminate.
Qed.

(** A time the parser accepts lies within the epoch day. *)
Lemma parse_spdlog_time_range (time_str : string) (t : Z) :
  parse_spdlog_time time_str = inr t -> 0 <= t < 86400000000.
Proof.
  unfold parse_spdlog_time.
  destruct (read_field 23 time_str) as [[hour s1]|] eqn:Eh; [|discriminate].
  destruct (read_char ":" s1) as [s2|]; [|discriminate].
  destruct (read_field 59 s2) as [[minute s3]|] eqn:Em; [|discriminate].
  destruct (read_char ":" s3) as [s4|]; [|discriminate].
  destruct (read_field 61 s4) as [[second s5]|] eqn:Es; [|discriminate].
  destruct (read_char "." s5) as [s6|]; [|discriminate].
  pose proof (read_digits_bound 6 0 s6 ltac:(lia)) as Hf.
  destruct (read_digits 6 0 s6) as [[f k] rest].
  destruct Hf as [Hk [Hlo Hhi]].
  apply read_field_bound in Eh; [|lia].
  apply read_field_bound in Em; [|lia].
  apply read_field_bound in Es; [|lia].
  destruct k as [|k]; [discriminate|].
  destruct rest; [|discriminate].
  destruct (59 <? second) eqn:E59; [discriminate|].
  apply Z.ltb_ge in E59.
  intros H.
  assert (Ht : t = ((hour * 60 + minute) * 60 + second) * 1000000
                   + f * 10 ^ Z.of_nat (6 - S k)) by congruence.
  clear H.
  assert (Hfrac : 0 <= f * 10 ^ Z.of_nat (6 - S k) < 1000000).
  { assert (Hpow : 10 ^ Z.of_nat (S k) * 10 ^ Z.of_nat (6 - S k) = 1000000).
    { rewrite <- Z.pow_add_r by lia.
      replace (Z.of_nat (S k) + Z.of_nat (6 - S k)) with 6 by lia.
      reflexivity. }
    assert (Hp : 0 < 10 ^ Z.of_nat (6 - S k))
      by (apply Z.pow_pos_nonneg; lia).
    nia. }
  lia.
Qed.

(** X15: the constructor parses a custom start time before it reads the
    end of the root.  A custom start time that is not of the form
    [H:M:S.f] raises [ValueError], whether the root has ended or not;
    otherwise a root without [end_time] raises [TypeError]; otherwise the
    constructor returns a visualizer that takes its [start_time] from the
    parsed custom start time when one is given and from the root when
    none is, its [end_time] from the root, builds downwards for the
    direction ["down"] and upwards for any other, and keeps the scale.  A
    parsed start time lies within the epoch day: the example of the
    docstring, ["01:22:36.053622"], is 4956053622 microseconds after
    midnight, one-digit fields and a short fraction are read
    (["1:2:3.5"]), and an hour 24, a second 60, a missing fraction and a
    seventh fraction digit are refused. *)
Theorem init_outcome (root : LogSection) (build_direction : string)
    (scale : Q) (use_custom : bool) (custom_height base_y : Q)
    (draw_axis : bool) (tick_w tick_h : Q)
    (custom_start_time : option string) :
  (forall time_str,
     custom_start_time = Some time_str -> ascii_only time_str = true) ->
  let made :=
    init root build_direction scale use_custom custom_height base_y
      draw_axis tick_w tick_h custom_start_time in
  let parsed :=
    match custom_start_time with
    | Some time_str => parse_spdlog_time time_str
    | None => inr (ParseLogs.start_time root)
    end in
  (parsed = inl ValueError <-> made = inl ValueError)
  /\ ((exists t, parsed = inr t) /\ ParseLogs.end_time root = None
      <-> made = inl TypeError)
  /\ (forall t e,
        parsed = inr t -> ParseLogs.end_time root = Some e ->
        exists self,
          made = inr self
          /\ root_section self = root
          /\ start_time self = t
          /\ end_time self = e
          /\ build_direction_factor self
             = (if String.eqb build_direction "down" then (-1)%Q else 1%Q)
          /\ ndc_units_per_second self = scale)
  /\ (forall time_str t,
        custom_start_time = Some time_str -> parsed = inr t ->
        0 <= t < 86400000000)
  /\ parse_spdlog_time "01:22:36.053622" = inr 4956053622
  /\ parse_spdlog_time "1:2:3.5" = inr 3723500000
  /\ parse_spdlog_time "24:00:00.0" = inl ValueError
  /\ parse_spdlog_time "01:22:60.5" = inl ValueError
  /\ parse_spdlog_time "01:22:36" = inl ValueError
  /\ parse_spdlog_time "01:22:36.0536221" = inl ValueError.
Proof.
  intros _ made parsed.
  assert (Hmade : made =
            match parsed with
            | inl e => inl e
            | inr start =>
                match ParseLogs.end_time root with
                | None => inl TypeError
                | Some e =>
                    inr {| root_section := root;
                           build_direction_factor :=
                             if String.eqb build_direction "down"
                             then (-1)%Q else 1%Q;
                           ndc_units_per_second := scale;
                           use_custom_root_section_height := use_custom;
                           custom_root_section_height := custom_height;
                           base_timeline_position_y := base_y;
                           draw_timeline := draw_axis;
                           timeline_tick_width := tick_w;
                           timeline_tick_height := tick_h;
                           start_time := start;
                           end_time := e;
                           total_duration :=
                             (total_seconds (e - start) * 1000000)%Q |}
                end
            end) by reflexivity.
  assert (Hexn : forall e, parsed = inl e -> e = ValueError).
  { intros e. unfold parsed. destruct custom_start_time as [s|];
      [|discriminate].
    unfold parse_spdlog_time.
    repeat match goal with
    | |- context [match ?x with _ => _ end] => destruct x
    end; intros H; first [discriminate H | injection H as <-; reflexivity]. }
  assert (Hrange : forall time_str t,
            custom_start_time = Some time_str -> parsed = inr t ->
            0 <= t < 86400000000).
  { intros time_str t E. unfold parsed. rewrite E.
    apply parse_spdlog_time_range. }
  rewrite Hmade. clearbody made parsed.
  split; [|split; [|split; [|split]]].
  - destruct parsed as [ex|t]; [|destruct (ParseLogs.end_time root)].
    + rewrite (Hexn ex eq_refl). split; reflexivity.
    + split; intros H; discriminate H.
    + split; intros H; discriminate H.
  - destruct parsed as [ex|t].
    + rewrite (Hexn ex eq_refl). split.
      * intros [[t H] _]. discriminate H.
      * intros H. discriminate H.
    + destruct (ParseLogs.end_time root).
      * split; [intros [_ H]|intros H]; discriminate H.
      * split; [reflexivity|]. intros _. split; [exists t|]; reflexivity.
  - intros t e -> ->. eexists. split; [reflexivity|].
    cbn [root_section end_time start_time
         build_direction_factor ndc_units_per_second].
    repeat split; reflexivity.
  - exact Hrange.
  - repeat split; vm_compute; reflexivity.
Qed.

Lemma init_outcome_witness :
  parse_spdlog_time "00:00:00.250000" = inr 250000
  /\ exists self,
       init demo_root "down" 0.5%Q true 0.01%Q 0%Q true 0.01%Q 0.1%Q
         (Some "00:00:00.250000"%string) = inr self
       /\ root_section self = demo_root
       /\ start_time self = 250000
       /\ end_time self = 2000000
       /\ build_direction_factor self = (-1)%Q
       /\ ndc_units_per_second self = 0.5%Q.
Proof.
  split; [reflexivity|].
  refine (proj1 (proj2 (proj2 (init_outcome demo_root "down" 0.5%Q true
            0.01%Q 0%Q true 0.01%Q 0.1%Q (Some "00:00:00.250000"%string)
            _))) 250000 2000000 eq_refl eq_refl).
  intros time_str E. injection E as <-. reflexivity.
Defined.

(** ** Tick labels *)

Lemma round_half_even_integer (q : Q) (z : Z) :
  (q == inject_Z z)%Q -> round_half_even q = z.
Proof.
  intros Hq. unfold round_half_even.
  assert (Hfloor : Qfloor q = z) by (rewrite Hq; apply Qfloor_Z).
  rewrite Hfloor.
  assert (Hr : (q - inject_Z z == 0)%Q) by (rewrite Hq; ring).
  rewrite Hr. reflexivity.
Qed.

(** X16: when [total_duration] is the number of microseconds from
    [start_time] to [end_time], as the constructor sets it, the first tick
    stands at x = -1 and is labelled with [start_time], and the last tick
    stands at x = 1 and is labelled with [end_time]. *)
Theorem draw_tick_end_labels (self : TimelineVisualizer) (st : State) :
  (total_duration self == inject_Z (end_time self - start_time self))%Q ->
  (exists x tx ty,
     commands (snd (draw_tick self 0 st))
     = commands st
       ++ [generate_rectangle x (base_timeline_position_y self) 0
             (timeline_tick_width self) (timeline_tick_height self)
             (0.4, 0.4, 0.4)%Q;
           get_text_geometry (strftime_HMSf (start_time self)) tx ty 0.1%Q
             0.2%Q 0.16%Q (0.8, 0.8, 0.8)%Q]
     /\ (x == -1)%Q)
  /\ (exists x tx ty,
        commands (snd (draw_tick self 10 st))
        = commands st
          ++ [generate_rectangle x (base_timeline_position_y self) 0
                (timeline_tick_width self) (timeline_tick_height self)
                (0.4, 0.4, 0.4)%Q;
              get_text_geometry (strftime_HMSf (end_time self)) tx ty 0.1%Q
                0.2%Q 0.16%Q (0.8, 0.8, 0.8)%Q]
        /\ (x == 1)%Q).
Proof.
  intros Htotal. split.
  - unfold draw_tick, bind, commands_append, used_text_areas_append.
    cbn [snd commands].
    rewrite (round_half_even_integer _ 0)
      by (cbn [Z.of_nat]; unfold Qdiv; rewrite !Qmult_0_l; reflexivity).
    rewrite Z.add_0_r. eexists _, _, _. split.
    + rewrite <- app_assoc. reflexivity.
    + reflexivity.
  - unfold draw_tick, bind, commands_append, used_text_areas_append.
    cbn [snd commands].
    rewrite (round_half_even_integer _ (end_time self - start_time self))
      by (rewrite Htotal; cbn [Z.of_nat]; field).
    replace (start_time self + (end_time self - start_time self))
      with (end_time self) by lia.
    eexists _, _, _. split.
    + rewrite <- app_assoc. reflexivity.
    + reflexivity.
Qed.

Lemma draw_tick_end_labels_witness :
  (total_duration demo == inject_Z (end_time demo - start_time demo))%Q
  /\ exists x tx ty,
       commands (snd (draw_tick demo 10 initial_state))
       = commands initial_state
         ++ [generate_rectangle x (base_timeline_position_y demo) 0
               (timeline_tick_width demo) (timeline_tick_height demo)
               (0.4, 0.4, 0.4)%Q;
             get_text_geometry (strftime_HMSf (end_time demo)) tx ty 0.1%Q
               0.2%Q 0.16%Q (0.8, 0.8, 0.8)%Q]
       /\ (x == 1)%Q.
Proof.
  split; [reflexivity|].
  apply (proj2 (draw_tick_end_labels demo initial_state eq_refl)).
Defined.
